(** * OCSP responder: the filtering source and the in-memory source

    A shallow embedding of package [responder] (the filtering decorator
    [filterSource] and the reference backend [InMemorySource]) together
    with the properties its specification states about them.

    Conventions of the embedding:
    - a Go byte slice is a [list Byte.byte]; [bytes.Equal] is [bytes_Equal];
    - a Go pointer that may be nil is an [option];
    - a Go map is an [option (gmap K V)]: [None] is the nil map, which
      reads as the empty map and panics when written to;
    - a Go result pair [(T, error)] is a pair of options, as Go allows
      every combination;
    - a panic is the [Panic] outcome of the small monad below;
    - logging, the outcome counter and the call of the wrapped source are
      effects on an explicit [World];
    - the request, the logger and the counter that the code is handed are
      taken to be non-nil: a request is a record and a logger a handle. *)

From Stdlib Require Import Strings.Ascii Strings.String Strings.Byte.
From Stdlib Require Numbers.HexadecimalString.
From stdpp Require Import gmap strings list fin_maps pretty.

Set Default Proof Using "Type".
Local Open Scope Z_scope.

(** ** Byte slices *)

Abbreviation bytes := (list Byte.byte).

(** [bytes.Equal]: same length and same bytes; a nil slice equals an empty
    one, which the list model gives for free. *)
Fixpoint bytes_Equal (a b : bytes) : bool :=
  match a, b with
  | [], [] => true
  | x :: a', y :: b' => Byte.eqb x y && bytes_Equal a' b'
  | _, _ => false
  end.

(** ** Outcomes: a value or a panic *)

Inductive outcome (A : Type) : Type :=
| Done (a : A)
| Panic (msg : string).
Arguments Done {A} a.
Arguments Panic {A} msg.

Definition outcome_bind {A B} (c : outcome A) (k : A → outcome B) : outcome B :=
  match c with
  | Done a => k a
  | Panic msg => Panic msg
  end.

Definition nil_map_write : string := "assignment to entry in nil map".
Definition nil_dereference : string :=
  "runtime error: invalid memory address or nil pointer dereference".

(** ** Go maps *)

Section gomap.
Context {K : Type} `{Countable K} {V : Type}.

(** [m[k]] with the comma-ok form: a nil map reads as empty. *)
Definition gomap_lookup (m : option (gmap K V)) (k : K) : option V :=
  match m with
  | None => None
  | Some g => g !! k
  end.

(** [m[k] = v]: panics on the nil map. *)
Definition gomap_assign (m : option (gmap K V)) (k : K) (v : V)
  : outcome (option (gmap K V)) :=
  match m with
  | None => Panic nil_map_write
  | Some g => Done (Some (<[k:=v]> g))
  end.

(** The entries of the map; [for k, v := range m] visits a permutation
    of them, chosen by the runtime. *)
Definition gomap_entries (m : option (gmap K V)) : list (K * V) :=
  match m with
  | None => []
  | Some g => map_to_list g
  end.

(** [len(m)] *)
Definition gomap_len (m : option (gmap K V)) : nat :=
  match m with
  | None => 0%nat
  | Some g => size g
  end.
End gomap.

(** ** Errors *)

(** Operands of a format string, kept unformatted. *)
Inductive fmtArg : Type :=
| ArgStr (s : string)
| ArgHash (h : N)          (* a crypto.Hash under %s *)
| ArgHex (b : bytes)       (* hex.EncodeToString(b) under %s *)
| ArgInt (z : Z).          (* an integer under %d *)

(** The error values the package builds and receives.  [ErrNotFound] is the
    package's sentinel; [errorString] is what [errors.New] and a [fmt.Errorf]
    without [%w] return; [wrapError] is a [fmt.Errorf] whose format has one
    [%w], with the wrapped error kept apart from the other operands. *)
Inductive error : Type :=
| ErrNotFound
| errorString (format : string) (args : list fmtArg)
| wrapError (format : string) (args : list fmtArg) (err : error).

(** [errors.Is(e, ErrNotFound)]: follow the [Unwrap] chain to the sentinel. *)
Fixpoint IsNotFound (e : error) : bool :=
  match e with
  | ErrNotFound => true
  | errorString _ _ => false
  | wrapError _ _ inner => IsNotFound inner
  end.

(** ** The OCSP messages (package ocsp) and certificates (package issuance) *)

Module crypto.
(** [crypto.Hash] is an unsigned integer; [SHA1] is its third constant. *)
Definition Hash := N.
Definition SHA1 : Hash := 3%N.
Definition SHA256 : Hash := 5%N.
End crypto.

Module ocsp.
Record Request : Type := {
  HashAlgorithm : crypto.Hash;
  IssuerNameHash : bytes;
  IssuerKeyHash : bytes;
  SerialNumber : Z
}.

(** The fields of a decoded response that the package reads. *)
Record Response : Type := {
  Status : Z;
  RespSerialNumber : Z;
  ResponderKeyHash : bytes
}.
End ocsp.

Module issuance.
Definition IssuerNameID := Z.

(** An issuer certificate, seen through the three methods the
    constructor calls on it. *)
Record Certificate : Type := {
  NameID : IssuerNameID;
  NameHash : bytes;
  KeyHash : bytes
}.
End issuance.

(** [Response]: the decoded response (an embedded pointer) and the raw
    bytes of its encoding. *)
Record Response : Type := {
  ocspResponse : option ocsp.Response;
  Raw : bytes
}.

Record responderID : Type := {
  nameHash : bytes;
  keyHash : bytes
}.

(** [context.Context], of which only the identity matters here. *)
Record Context : Type := { deadline : option Z; cancelled : bool }.

(** ** Effects *)

Inductive logLevel := LevelDebug | LevelInfo | LevelWarning | LevelErr.

Inductive logArg : Type :=
| LArg (a : fmtArg)
| LErrorText (e : error).   (* err.Error(), or an error under %s *)

Record logLine : Type := {
  level : logLevel;
  format : string;
  operands : list logArg
}.

(** A handle on a [blog.Logger]. *)
Inductive Logger := LoggerId (n : nat).

(** The options of a [prometheus.CounterVec] and its label names. *)
Record CounterVec : Type := {
  Name : string;
  Help : string;
  labelNames : list string
}.

(** What one source can change: its counter (by label value), the lines it
    has logged (oldest first), the calls it has made to the source it
    wraps (oldest first), and the state [Σ] of that source. *)
Record World (Σ : Type) : Type := {
  counts : gmap string nat;
  logs : list logLine;
  calls : list (Context * ocsp.Request);
  inner : Σ
}.
Arguments counts {Σ} w.
Arguments logs {Σ} w.
Arguments calls {Σ} w.
Arguments inner {Σ} w.

(** The value of the counter for a label value, and its increment. *)
Definition count (c : gmap string nat) (l : string) : nat := default 0%nat (c !! l).
Definition bump (l : string) (c : gmap string nat) : gmap string nat :=
  <[l := S (count c l)]> c.

Definition M (Σ A : Type) : Type := Σ → outcome A * Σ.

Definition ret {Σ A} (a : A) : M Σ A := λ w, (Done a, w).

Definition bind {Σ A B} (c : M Σ A) (k : A → M Σ B) : M Σ B :=
  λ w, match c w with
       | (Done a, w') => k a w'
       | (Panic msg, w') => (Panic msg, w')
       end.

Definition lift {Σ A} (c : outcome A) : M Σ A := λ w, (c, w).

Declare Scope go_scope.
Delimit Scope go_scope with go.
Notation "x <- c ;; k" := (bind c (λ x, k))
  (at level 100, c at next level, right associativity) : go_scope.
Notation "c ;; k" := (bind c (λ _, k))
  (at level 100, right associativity) : go_scope.

(** ** Sources *)

(** The [Source] interface: one method, [Response], here over the state
    [Σ] that the implementation may read and change. *)
Class Source (S Σ : Type) : Type :=
  SourceResponse : S → Context → ocsp.Request → M Σ (option Response * option error).

Record filterSource (W : Type) : Type := {
  wrapped : W;
  hashAlgorithm : crypto.Hash;
  issuers : option (gmap issuance.IssuerNameID responderID);
  serialPrefixes : list string;
  counter : CounterVec;
  log : Logger
}.
Arguments wrapped {W} f.
Arguments hashAlgorithm {W} f.
Arguments issuers {W} f.
Arguments serialPrefixes {W} f.
Arguments counter {W} f.
Arguments log {W} f.

(** The loop of [NewFilterSource] over the issuer certificates. *)
Fixpoint addIssuers (issuersByNameId : option (gmap issuance.IssuerNameID responderID))
    (issuerCerts : list issuance.Certificate)
  : outcome (option (gmap issuance.IssuerNameID responderID)) :=
  match issuerCerts with
  | [] => Done issuersByNameId
  | issuerCert :: rest =>
      let keyHash := issuance.KeyHash issuerCert in
      let nameHash := issuance.NameHash issuerCert in
      let rid := {| nameHash := nameHash; keyHash := keyHash |} in
      outcome_bind (gomap_assign issuersByNameId (issuance.NameID issuerCert) rid)
                   (λ m, addIssuers m rest)
  end.

(** [NewFilterSource]; the registerer [stats] is not used by the body. *)
Definition NewFilterSource {W} (issuerCerts : list issuance.Certificate)
    (serialPrefixes : list string) (wrapped : W) (log : Logger)
  : outcome (option (filterSource W) * option error) :=
  if (length issuerCerts <? 1)%nat then
    Done (None, Some (errorString "Filter must include at least 1 issuer cert" []))
  else
    (* var issuersByNameId map[issuance.IssuerNameID]responderID *)
    outcome_bind (addIssuers None issuerCerts) (λ issuersByNameId,
      let counter := {| Name := "ocsp_filter_responses";
                        Help := "Count of OCSP requests/responses by action taken by the filter";
                        labelNames := ["result"] |} in
      Done (Some {| wrapped := wrapped;
                    hashAlgorithm := crypto.SHA1;
                    issuers := issuersByNameId;
                    serialPrefixes := serialPrefixes;
                    counter := counter;
                    log := log |},
            None)).

(** ** The filtering source *)

Section filter.
Context {W Σ : Type} `{!Source W Σ}.

(** [core.SerialToString], the canonical string form of a serial number;
    it lives in another package and is taken as given. *)
Variable SerialToString : Z → string.

Local Open Scope go_scope.

(** [counter.WithLabelValues(l).Inc()] *)
Definition Inc (l : string) : M (World Σ) unit :=
  λ w, (Done tt,
        {| counts := bump l (counts w);
           logs := logs w; calls := calls w; inner := inner w |}).

Definition logf (lvl : logLevel) (fmt : string) (args : list logArg)
  : M (World Σ) unit :=
  λ w, (Done tt,
        {| counts := counts w;
           logs := logs w ++ [{| level := lvl; format := fmt; operands := args |}];
           calls := calls w; inner := inner w |}).

(** [src.wrapped.Response(ctx, req)]: the wrapped source runs on its own
    state, and the call is recorded. *)
Definition callWrapped (wr : W) (ctx : Context) (req : ocsp.Request)
  : M (World Σ) (option Response * option error) :=
  λ w, let '(r, s') := SourceResponse wr ctx req (inner w) in
       (r, {| counts := counts w; logs := logs w;
              calls := calls w ++ [(ctx, req)]; inner := s' |}).

(** The loop over the serial prefixes, with its [break]. *)
Fixpoint matchPrefix (serialString : string) (prefixes : list string) : bool :=
  match prefixes with
  | [] => false
  | prefix :: rest =>
      if String.prefix prefix serialString then true
      else matchPrefix serialString rest
  end.

(** The loop over the entries of the issuer map, in the order [ord] in
    which the runtime enumerates them. *)
Fixpoint findIssuer (IssuerKeyHash : bytes)
    (ord : list (issuance.IssuerNameID * responderID))
  : option issuance.IssuerNameID :=
  match ord with
  | [] => None
  | (nameID, rid) :: rest =>
      if bytes_Equal IssuerKeyHash (keyHash rid) then Some nameID
      else findIssuer IssuerKeyHash rest
  end.

Definition checkRequest (ord : list (issuance.IssuerNameID * responderID))
    (src : filterSource W) (req : ocsp.Request)
  : issuance.IssuerNameID * option error :=
  if negb (ocsp.HashAlgorithm req =? hashAlgorithm src)%N then
    (0, Some (wrapError "unsupported issuer key/name hash algorithm %s: %w"
                        [ArgHash (ocsp.HashAlgorithm req)] ErrNotFound))
  else if (0 <? length (serialPrefixes src))%nat
          && negb (matchPrefix (SerialToString (ocsp.SerialNumber req))
                               (serialPrefixes src)) then
    (0, Some (wrapError "unrecognized serial prefix: %w" [] ErrNotFound))
  else
    match findIssuer (ocsp.IssuerKeyHash req) ord with
    | Some nameID => (nameID, None)
    | None =>
        (0, Some (wrapError "unrecognized issuer key hash %s: %w"
                            [ArgHex (ocsp.IssuerKeyHash req)] ErrNotFound))
    end.

Definition checkResponse (src : filterSource W) (iss : issuance.IssuerNameID)
    (resp : option Response) : outcome (option error) :=
  match gomap_lookup (issuers src) iss with
  | None => Done (Some (errorString "unrecognized issuer name ID: %d" [ArgInt iss]))
  | Some rid =>
      match resp with
      | None => Panic nil_dereference
      | Some r =>
          match ocspResponse r with
          | None => Panic nil_dereference
          | Some o =>
              if negb (bytes_Equal (keyHash rid) (ocsp.ResponderKeyHash o)) then
                Done (Some (errorString "responder does not match requested issuer" []))
              else Done None
          end
      end
  end.

Definition filterSource_Response (ord : list (issuance.IssuerNameID * responderID))
    (src : filterSource W) (ctx : Context) (req : ocsp.Request)
  : M (World Σ) (option Response * option error) :=
  let (iss, err) := checkRequest ord src req in
  match err with
  | Some e =>
      logf LevelDebug "Not responding to filtered OCSP request: %s" [LErrorText e] ;;
      Inc "request_filtered" ;;
      ret (None, Some e)
  | None =>
      r <- callWrapped (wrapped src) ctx req ;;
      match r.2 with
      | Some e =>
          Inc "wrapped_error" ;;
          ret (None, Some e)
      | None =>
          err <- lift (checkResponse src iss r.1) ;;
          match err with
          | Some e =>
              logf LevelWarning
                "OCSP Response not sent (issuer and serial mismatch) for CA=%s, Serial=%s"
                [LArg (ArgHex (ocsp.IssuerKeyHash req));
                 LArg (ArgStr (SerialToString (ocsp.SerialNumber req)))] ;;
              Inc "response_filtered" ;;
              ret (None, Some e)
          | None =>
              Inc "success" ;;
              ret (r.1, None)
          end
      end
  end.

(** The order [ord] is one in which the runtime may enumerate the
    issuers of [src]. *)
Definition rangeOf (src : filterSource W)
    (ord : list (issuance.IssuerNameID * responderID)) : Prop :=
  ord ≡ₚ gomap_entries (issuers src).
End filter.

(** ** The in-memory source *)

Record InMemorySource : Type := {
  responses : option (gmap string (option Response));
  logger : Logger          (* the field [log] *)
}.

Definition NewMemorySource (responses : option (gmap string (option Response)))
    (logger : Logger) : InMemorySource :=
  {| responses := responses; logger := logger |}.

(** [big.Int.String]: the decimal form, with a minus sign below zero. *)
Definition decimal (n : Z) : string := pretty n.

(** [InMemorySource.Response]; it has no effect on any state. *)
Definition InMemorySource_Response {Σ} (src : InMemorySource) (_ : Context)
    (request : ocsp.Request) : M Σ (option Response * option error) :=
  match gomap_lookup (responses src) (decimal (ocsp.SerialNumber request)) with
  | None => ret (None, Some ErrNotFound)
  | Some response => ret (response, None)
  end.

Global Instance InMemorySource_Source {Σ} : Source InMemorySource Σ :=
  InMemorySource_Response.

(** The characters that the regular expression [\s] matches: tab, line
    feed, form feed, carriage return and space. *)
Definition isSpace (c : ascii) : bool :=
  let n := nat_of_ascii c in
  (n =? 9)%nat || (n =? 10)%nat || (n =? 12)%nat || (n =? 13)%nat || (n =? 32)%nat.

(** [regexp.MustCompile(`\s`).Split(s, -1)]: the pieces of [s] between the
    space characters, empty pieces included; the empty string gives one
    empty piece. *)
Fixpoint splitSpace (s : string) : list string :=
  match s with
  | EmptyString => [EmptyString]
  | String c rest =>
      if isSpace c then EmptyString :: splitSpace rest
      else match splitSpace rest with
           | [] => [String c EmptyString]
           | piece :: pieces => String c piece :: pieces
           end
  end.

(** The store [responses[key] = value] on an allocated map, for one loaded
    token. *)
Definition storeEntry (responses : gmap string (option Response))
    (entry : string * Response) : gmap string (option Response) :=
  <[entry.1 := Some entry.2]> responses.

Section memory.
(** The file system and the two decoders are outside the package:
    [ioutil.ReadFile], [base64.StdEncoding.DecodeString] and
    [ocsp.ParseResponse] (called with a nil issuer). *)
Variable ReadFile : string → string + error.
Variable DecodeString : string → bytes + error.
Variable ParseResponse : bytes → ocsp.Response + error.

Local Open Scope go_scope.

(** [logger.Errf] and [logger.Infof] on the lines logged so far. *)
Definition logLine_to (lvl : logLevel) (fmt : string) (args : list logArg)
  : M (list logLine) unit :=
  λ ls, (Done tt, ls ++ [{| level := lvl; format := fmt; operands := args |}]).

(** The loop of [NewMemorySourceFromFile] over the tokens of the file. *)
Fixpoint loadResponses (responsesB64 : list string)
    (responses : option (gmap string (option Response)))
  : M (list logLine) (option (gmap string (option Response))) :=
  match responsesB64 with
  | [] => ret responses
  | b64 :: rest =>
      if String.eqb b64 "" then loadResponses rest responses
      else
        match DecodeString b64 with
        | inr tmpErr =>
            logLine_to LevelErr "Base64 decode error %s on: %s"
                       [LErrorText tmpErr; LArg (ArgStr b64)] ;;
            loadResponses rest responses
        | inl der =>
            match ParseResponse der with
            | inr tmpErr =>
                logLine_to LevelErr "OCSP decode error %s on: %s"
                           [LErrorText tmpErr; LArg (ArgStr b64)] ;;
                loadResponses rest responses
            | inl response =>
                responses' <-
                  lift (gomap_assign responses
                          (decimal (ocsp.RespSerialNumber response))
                          (Some {| ocspResponse := Some response; Raw := der |})) ;;
                loadResponses rest responses'
            end
        end
  end.

Definition NewMemorySourceFromFile (responseFile : string) (logger : Logger)
  : M (list logLine) (option InMemorySource * option error) :=
  match ReadFile responseFile with
  | inr err => ret (None, Some err)
  | inl fileContents =>
      let responsesB64 := splitSpace fileContents in
      (* make(map[string]*Response, len(responsesB64)) *)
      responses <- loadResponses responsesB64 (Some ∅) ;;
      logLine_to LevelInfo "Read %d OCSP responses"
                 [LArg (ArgInt (Z.of_nat (gomap_len responses)))] ;;
      ret (Some (NewMemorySource responses logger), None)
  end.

(** The tokens that load, in file order, each with the key and the value
    stored for it. *)
Definition loaded (b64 : string) : option (string * Response) :=
  if String.eqb b64 "" then None
  else match DecodeString b64 with
       | inr _ => None
       | inl der =>
           match ParseResponse der with
           | inr _ => None
           | inl response =>
               Some (decimal (ocsp.RespSerialNumber response),
                     {| ocspResponse := Some response; Raw := der |})
           end
       end.

(** The non-empty tokens that fail to decode or to parse. *)
Definition malformed (b64 : string) : bool :=
  negb (String.eqb b64 "")
  && match loaded b64 with None => true | Some _ => false end.

(** How many tokens are malformed. *)
Definition countMalformed (responsesB64 : list string) : nat :=
  length (List.filter malformed responsesB64).
End memory.

(** ** Notions for stating properties of the two sources *)

(** The string holds a character that [\s] matches. *)
Fixpoint hasSpace (s : string) : bool :=
  match s with
  | EmptyString => false
  | String c rest => isSpace c || hasSpace rest
  end.

(** How many of its characters [\s] matches. *)
Fixpoint countSpaces (s : string) : nat :=
  match s with
  | EmptyString => 0%nat
  | String c rest => ((if isSpace c then 1 else 0) + countSpaces rest)%nat
  end.

(** The token is not the empty string. *)
Definition nonEmpty (b64 : string) : bool := negb (String.eqb b64 "").

(** The four label values under which [filterSource.Response] counts. *)
Definition outcomeLabels : list string :=
  ["request_filtered"; "wrapped_error"; "response_filtered"; "success"]%string.

(** ** Concrete data for the examples *)

Module example.
(** Modelled from the spec: [core.SerialToString] is not part of the
    sources at hand; the spec calls its result the canonical hex string
    of the serial number.  Here: lower-case hex digits, padded with
    zeros to 36 characters.  Only the examples use it; every theorem
    holds for any conversion. *)
Definition SerialToString (serial : Z) : string :=
  let digits := HexadecimalString.NilZero.string_of_uint (N.to_hex_uint (Z.to_N serial)) in
  String.concat "" (replicate (36 - String.length digits) "0"%string) +:+ digits.

Definition Ka : bytes := [x0a; x01; x02; x03].
Definition Kb : bytes := [x0b; x01; x02; x03].
Definition Kc : bytes := [x0c; x01; x02; x03].
Definition Na : bytes := [xa0; xff].
Definition Nb : bytes := [xb0; xff].

Definition certA : issuance.Certificate :=
  {| issuance.NameID := 11; issuance.NameHash := Na; issuance.KeyHash := Ka |}.
Definition certB : issuance.Certificate :=
  {| issuance.NameID := 22; issuance.NameHash := Nb; issuance.KeyHash := Kb |}.

Definition ridA : responderID := {| nameHash := Na; keyHash := Ka |}.
Definition ridB : responderID := {| nameHash := Nb; keyHash := Kb |}.

Definition issuersAB : gmap issuance.IssuerNameID responderID :=
  <[11 := ridA]> (<[22 := ridB]> ∅).

(** A response for serial 1 signed by issuer B, and one for serial 2
    signed by issuer A. *)
Definition resp1B : Response :=
  {| ocspResponse := Some {| ocsp.Status := 0; ocsp.RespSerialNumber := 1;
                             ocsp.ResponderKeyHash := Kb |};
     Raw := [x30; x03; x0a; x01; x00] |}.
Definition resp2A : Response :=
  {| ocspResponse := Some {| ocsp.Status := 0; ocsp.RespSerialNumber := 2;
                             ocsp.ResponderKeyHash := Ka |};
     Raw := [x30; x03; x0a; x01; x01] |}.

Definition store : InMemorySource :=
  NewMemorySource (Some (<["1"%string := Some resp1B]> (<["2"%string := Some resp2A]> ∅)))
                  (LoggerId 0).

Definition filterAB (prefixes : list string) : filterSource InMemorySource :=
  {| wrapped := store;
     hashAlgorithm := crypto.SHA1;
     issuers := Some issuersAB;
     serialPrefixes := prefixes;
     counter := {| Name := "ocsp_filter_responses";
                   Help := "Count of OCSP requests/responses by action taken by the filter";
                   labelNames := ["result"%string] |};
     log := LoggerId 0 |}.

Definition request (alg : crypto.Hash) (issuerKey : bytes) (serial : Z) : ocsp.Request :=
  {| ocsp.HashAlgorithm := alg; ocsp.IssuerNameHash := Na;
     ocsp.IssuerKeyHash := issuerKey; ocsp.SerialNumber := serial |}.

Definition ctx : Context := {| deadline := None; cancelled := false |}.

Definition world0 : World unit :=
  {| counts := ∅; logs := []; calls := []; inner := tt |}.

(** A second response for serial 1, signed by issuer A. *)
Definition resp1A : Response :=
  {| ocspResponse := Some {| ocsp.Status := 1; ocsp.RespSerialNumber := 1;
                             ocsp.ResponderKeyHash := Ka |};
     Raw := [x30; x03; x0a; x01; x02] |}.

(** Stand-ins for the two decoders, defined on the tokens of the example
    files: three tokens decode, and the three byte strings they decode to
    parse as the three responses above; the token "/wA=" decodes to bytes
    that do not parse. *)
Definition DecodeString (s : string) : bytes + error :=
  if String.eqb s "MAMKAQA=" then inl (Raw resp1B)
  else if String.eqb s "MAMKAQE=" then inl (Raw resp2A)
  else if String.eqb s "MAMKAQI=" then inl (Raw resp1A)
  else if String.eqb s "/wA=" then inl [xff; x00]
  else inr (errorString "illegal base64 data at input byte %d" [ArgInt 0]).

Definition ParseResponse (der : bytes) : ocsp.Response + error :=
  let parsed (r : Response) :=
    match ocspResponse r with
    | Some o => inl o
    | None => inr (errorString "OCSP response contains bad number of responses" [])
    end in
  if bytes_Equal der (Raw resp1B) then parsed resp1B
  else if bytes_Equal der (Raw resp2A) then parsed resp2A
  else if bytes_Equal der (Raw resp1A) then parsed resp1A
  else inr (errorString "asn1: structure error" []).

(** Two files: two valid responses and one malformed token; and serial 1
    twice, with serial 2 and an unparsable token in between. *)
Definition ReadFile (name : string) : string + error :=
  if String.eqb name "two.b64" then
    inl ("MAMKAQA=" +:+ String "010" ("MAMKAQE=" +:+ String "010" ("!!!" +:+ String "010" "")))
  else if String.eqb name "dup.b64" then
    inl ("MAMKAQA= MAMKAQE=" +:+ String "010" (String "009" ("/wA=  MAMKAQI=")))
  else inr (errorString "open %s: no such file or directory" [ArgStr name]).

(** A store whose entry for serial 1 is a nil pointer. *)
Definition storeNil : InMemorySource :=
  NewMemorySource (Some (<["1"%string := None]> ∅)) (LoggerId 0).

(** A filter over a given store, with a given issuer map. *)
Definition filterOn (st : InMemorySource)
    (configured : option (gmap issuance.IssuerNameID responderID))
    (prefixes : list string) : filterSource InMemorySource :=
  {| wrapped := st;
     hashAlgorithm := crypto.SHA1;
     issuers := configured;
     serialPrefixes := prefixes;
     counter := {| Name := "ocsp_filter_responses";
                   Help := "Count of OCSP requests/responses by action taken by the filter";
                   labelNames := ["result"%string] |};
     log := LoggerId 0 |}.

(** Three more files beside the two above: one of space characters only,
    one with the tokens of "two.b64" spaced otherwise, and one with them
    in another order. *)
Definition ReadFiles (name : string) : string + error :=
  if String.eqb name "blank.b64" then
    inl (String " " (String "010" (String "009" (String "013" ""))))
  else if String.eqb name "spaced.b64" then
    inl (String "010" ("MAMKAQA=  MAMKAQE=" +:+ String "009" "!!!"))
  else if String.eqb name "swapped.b64" then
    inl ("!!! MAMKAQE= MAMKAQA=" +:+ String "010" "")
  else ReadFile name.
End example.

(** * Properties *)

(** ** Byte slices, errors and maps *)

Lemma bytes_Equal_eq (a b : bytes) : bytes_Equal a b = true ↔ a = b.
Proof.
  revert b. induction a as [|x a IH]; intros [|y b]; simpl; try (split; congruence).
  rewrite andb_true_iff, IH. split.
  - intros [Hxy ->]. by rewrite (Byte.byte_dec_bl _ _ Hxy).
  - intros [= -> ->]. split; [by apply Byte.byte_dec_lb | done].
Qed.

Lemma bytes_Equal_neq (a b : bytes) : bytes_Equal a b = false ↔ a ≠ b.
Proof.
  rewrite <- bytes_Equal_eq. destruct (bytes_Equal a b); split; congruence.
Qed.

Lemma count_bump_eq (l : string) (c : gmap string nat) :
  count (bump l c) l = S (count c l).
Proof. unfold count at 1, bump. by rewrite lookup_insert_eq. Qed.

Lemma count_bump_ne (l l' : string) (c : gmap string nat) :
  l ≠ l' → count (bump l c) l' = count c l'.
Proof. intros Hne. unfold count, bump. by rewrite lookup_insert_ne. Qed.

Lemma addIssuers_nil_map (c : issuance.Certificate) (cs : list issuance.Certificate) :
  addIssuers None (c :: cs) = Panic nil_map_write.
Proof. reflexivity. Qed.

(** The loop leaves alone the name IDs of other issuers. *)
Lemma addIssuers_other (cs : list issuance.Certificate)
    (g g' : gmap issuance.IssuerNameID responderID) (k : issuance.IssuerNameID) :
  addIssuers (Some g) cs = Done (Some g') →
  k ∉ issuance.NameID <$> cs →
  g' !! k = g !! k.
Proof.
  revert g. induction cs as [|c cs IH]; intros g; simpl.
  - by intros [= <-] _.
  - intros Hrun [Hne Hnin]%not_elem_of_cons.
    rewrite (IH _ Hrun Hnin). by rewrite lookup_insert_ne.
Qed.

(** On an allocated map the same loop never panics and leaves every
    issuer in the map under its name ID: only the allocation is missing. *)
Lemma addIssuers_allocated (cs : list issuance.Certificate)
    (g : gmap issuance.IssuerNameID responderID) :
  ∃ g', addIssuers (Some g) cs = Done (Some g')
        ∧ ∀ c, c ∈ cs → is_Some (g' !! issuance.NameID c).
Proof.
  revert g. induction cs as [|c cs IH]; intros g; simpl.
  - exists g. split; [done |]. by intros c ?%elem_of_nil.
  - destruct (IH (<[issuance.NameID c :=
                      {| nameHash := issuance.NameHash c;
                         keyHash := issuance.KeyHash c |}]> g))
      as (g' & Hrun & Hall).
    exists g'. split; [done |]. intros d [->|Hd]%elem_of_cons; [| by apply Hall].
    destruct (decide (issuance.NameID c ∈ issuance.NameID <$> cs)) as [Hin|Hnin].
    + apply list_elem_of_fmap in Hin as (c' & -> & Hc'). by apply Hall.
    + rewrite (addIssuers_other _ _ _ _ Hrun Hnin), lookup_insert_eq. by eexists.
Qed.

(** C1, as the code behaves: [NewFilterSource] returns an error for an
    empty list of issuer certificates; for every non-empty list it panics
    on the first write to the issuer map, which is declared and never
    allocated, so that no filter is returned. *)
Theorem NewFilterSource_nil_map {W : Type} (serialPrefixes : list string)
    (wrapped : W) (log : Logger) :
  (∃ e, NewFilterSource [] serialPrefixes wrapped log = Done (None, Some e))
  ∧ ∀ c cs, NewFilterSource (c :: cs) serialPrefixes wrapped log = Panic nil_map_write.
Proof.
  split; [eexists; reflexivity |]. intros c cs. reflexivity.
Qed.

(** The constructor on issuers A and B, by evaluation. *)
Example NewFilterSource_two_issuers :
  NewFilterSource [example.certA; example.certB] [] example.store (LoggerId 0)
  = Panic "assignment to entry in nil map".
Proof. reflexivity. Qed.

(** ** The filtering source *)

Section filter_properties.
Context {W Σ : Type} `{!Source W Σ}.
Variable SerialToString : Z → string.

Implicit Types (src : filterSource W) (req : ocsp.Request) (ctx : Context).
Implicit Types (w : World Σ) (ord : list (issuance.IssuerNameID * responderID)).

(** *** The two loops of [checkRequest] *)

Lemma matchPrefix_false (s : string) (prefixes : list string) :
  matchPrefix s prefixes = false ↔ ∀ p, p ∈ prefixes → String.prefix p s = false.
Proof.
  induction prefixes as [|p ps IH]; simpl.
  - split; [intros _ p Hp; inversion Hp | done].
  - destruct (String.prefix p s) eqn:Hp.
    + split; [done |]. intros Hall. rewrite <- Hp. apply Hall. left.
    + rewrite IH. split.
      * intros Hall q Hq. inversion Hq; subst; auto.
      * intros Hall q Hq. apply Hall. by right.
Qed.

Lemma findIssuer_Some (k : bytes) ord (iss : issuance.IssuerNameID) :
  findIssuer k ord = Some iss → ∃ rid, (iss, rid) ∈ ord ∧ keyHash rid = k.
Proof.
  induction ord as [|[id rid] ord IH]; simpl; [done |].
  destruct (bytes_Equal k (keyHash rid)) eqn:Heq.
  - intros [= <-]. exists rid. split; [left |].
    symmetry. by apply bytes_Equal_eq.
  - intros Hfind. destruct (IH Hfind) as (rid' & Hin & Hk).
    exists rid'. split; [by right | done].
Qed.

Lemma findIssuer_None (k : bytes) ord :
  findIssuer k ord = None ↔ ∀ id rid, (id, rid) ∈ ord → keyHash rid ≠ k.
Proof.
  induction ord as [|[id rid] ord IH]; simpl.
  - split; [intros _ id rid Hin; inversion Hin | done].
  - destruct (bytes_Equal k (keyHash rid)) eqn:Heq.
    + split; [done |]. intros Hall. apply bytes_Equal_eq in Heq.
      exfalso. apply (Hall id rid); [left | done].
    + rewrite IH. apply bytes_Equal_neq in Heq. split.
      * intros Hall id' rid' Hin. inversion Hin; subst; [congruence | eauto].
      * intros Hall id' rid' Hin. apply (Hall id' rid'). by right.
Qed.

(** An enumeration of the issuer map holds exactly its entries. *)
Lemma rangeOf_elem src ord (id : issuance.IssuerNameID) (rid : responderID) :
  rangeOf src ord → (id, rid) ∈ ord ↔ gomap_lookup (issuers src) id = Some rid.
Proof.
  unfold rangeOf. intros ->. destruct (issuers src) as [g|]; simpl.
  - apply elem_of_map_to_list.
  - split; [intros Hin; inversion Hin | done].
Qed.

(** *** [checkRequest] *)

Lemma checkRequest_rejects ord src req (iss : issuance.IssuerNameID) (e : error) :
  checkRequest SerialToString ord src req = (iss, Some e) →
  iss = 0 ∧ IsNotFound e = true.
Proof.
  unfold checkRequest. repeat case_match; intros [= <- <-]; done.
Qed.

Lemma checkRequest_accepts ord src req (iss : issuance.IssuerNameID) :
  checkRequest SerialToString ord src req = (iss, None) ↔
    ocsp.HashAlgorithm req = hashAlgorithm src
    ∧ (serialPrefixes src = []
       ∨ matchPrefix (SerialToString (ocsp.SerialNumber req)) (serialPrefixes src) = true)
    ∧ findIssuer (ocsp.IssuerKeyHash req) ord = Some iss.
Proof.
  unfold checkRequest.
  destruct (N.eqb_spec (ocsp.HashAlgorithm req) (hashAlgorithm src)) as [Halg|Halg];
    simpl; [| split; [done | tauto]].
  destruct (serialPrefixes src) as [|p ps] eqn:Hps; simpl.
  - destruct (findIssuer _ ord) as [id|]; split.
    + intros [= ->]. auto.
    + intros (_ & _ & [= ->]). done.
    + done.
    + intros (_ & _ & [=]).
  - set (found := if String.prefix p _ then true else _).
    destruct found; simpl.
    + destruct (findIssuer _ ord) as [id|]; split.
      * intros [= ->]. auto.
      * intros (_ & _ & [= ->]). done.
      * done.
      * intros (_ & _ & [=]).
    + split; [done |]. intros (_ & [[=]|[=]] & _).
Qed.

(** *** The three ways out of [Response] before success *)

Lemma Response_request_filtered ord src ctx req w
    (iss : issuance.IssuerNameID) (e : error) :
  checkRequest SerialToString ord src req = (iss, Some e) →
  filterSource_Response SerialToString ord src ctx req w
  = (Done (None, Some e),
     {| counts := bump "request_filtered" (counts w);
        logs := logs w ++ [{| level := LevelDebug;
                              format := "Not responding to filtered OCSP request: %s";
                              operands := [LErrorText e] |}];
        calls := calls w;
        inner := inner w |}).
Proof.
  intros Hreq. unfold filterSource_Response. rewrite Hreq. reflexivity.
Qed.

Lemma Response_wrapped_error ord src ctx req w (iss : issuance.IssuerNameID)
    (resp : option Response) (e : error) (s' : Σ) :
  checkRequest SerialToString ord src req = (iss, None) →
  SourceResponse (wrapped src) ctx req (inner w) = (Done (resp, Some e), s') →
  filterSource_Response SerialToString ord src ctx req w
  = (Done (None, Some e),
     {| counts := bump "wrapped_error" (counts w);
        logs := logs w;
        calls := calls w ++ [(ctx, req)];
        inner := s' |}).
Proof.
  intros Hreq Hwr. unfold filterSource_Response. rewrite Hreq.
  unfold bind, callWrapped. rewrite Hwr. reflexivity.
Qed.

(** After a response without error from the wrapped source, the result
    is decided by [checkResponse] on the issuer that [checkRequest]
    returned. *)
Lemma Response_checked ord src ctx req w (iss : issuance.IssuerNameID)
    (resp : option Response) (s' : Σ) :
  checkRequest SerialToString ord src req = (iss, None) →
  SourceResponse (wrapped src) ctx req (inner w) = (Done (resp, None), s') →
  filterSource_Response SerialToString ord src ctx req w
  = match checkResponse src iss resp with
    | Done None =>
        (Done (resp, None),
         {| counts := bump "success" (counts w);
            logs := logs w;
            calls := calls w ++ [(ctx, req)];
            inner := s' |})
    | Done (Some e) =>
        (Done (None, Some e),
         {| counts := bump "response_filtered" (counts w);
            logs := logs w ++
              [{| level := LevelWarning;
                  format := "OCSP Response not sent (issuer and serial mismatch) for CA=%s, Serial=%s";
                  operands := [LArg (ArgHex (ocsp.IssuerKeyHash req));
                               LArg (ArgStr (SerialToString (ocsp.SerialNumber req)))] |}];
            calls := calls w ++ [(ctx, req)];
            inner := s' |})
    | Panic msg =>
        (Panic msg,
         {| counts := counts w; logs := logs w;
            calls := calls w ++ [(ctx, req)]; inner := s' |})
    end.
Proof.
  intros Hreq Hwr. unfold filterSource_Response. rewrite Hreq.
  unfold bind, callWrapped. rewrite Hwr. simpl. unfold lift.
  destruct (checkResponse src iss resp) as [[e|]|msg]; reflexivity.
Qed.

Lemma checkResponse_error src (iss : issuance.IssuerNameID)
    (resp : option Response) (e : error) :
  checkResponse src iss resp = Done (Some e) → IsNotFound e = false.
Proof.
  unfold checkResponse. repeat case_match; intros [= <-]; done.
Qed.
End filter_properties.

Section filter_claims.
Context {W Σ : Type} `{!Source W Σ}.
Variable SerialToString : Z → string.

Implicit Types (src : filterSource W) (req : ocsp.Request) (ctx : Context).
Implicit Types (w : World Σ) (ord : list (issuance.IssuerNameID * responderID)).
Implicit Types (iss : issuance.IssuerNameID) (rid : responderID).

(** C2: when the request is admitted and the wrapped source hands back a
    response whose responder key hash differs from the key hash configured
    for the issuer that [checkRequest] matched, [Response] returns a
    non-nil error and a nil response, whatever error value came with the
    response. *)
Theorem Response_mismatch_not_released ord src ctx req w iss rid
    (o : ocsp.Response) (raw : bytes) (err : option error) (s' : Σ) :
  checkRequest SerialToString ord src req = (iss, None) →
  gomap_lookup (issuers src) iss = Some rid →
  SourceResponse (wrapped src) ctx req (inner w)
    = (Done (Some {| ocspResponse := Some o; Raw := raw |}, err), s') →
  ocsp.ResponderKeyHash o ≠ keyHash rid →
  ∃ e w', filterSource_Response SerialToString ord src ctx req w
          = (Done (None, Some e), w').
Proof.
  intros Hreq Hrid Hwr Hne. destruct err as [e|].
  - rewrite (Response_wrapped_error _ _ _ _ _ _ _ _ _ _ Hreq Hwr). eauto.
  - rewrite (Response_checked _ _ _ _ _ _ _ _ _ Hreq Hwr).
    unfold checkResponse. rewrite Hrid. simpl.
    assert (bytes_Equal (keyHash rid) (ocsp.ResponderKeyHash o) = false) as ->
      by (apply bytes_Equal_neq; congruence).
    simpl. eauto.
Qed.

(** C3: when the request is admitted and the wrapped source returns,
    without error, a response whose responder key hash equals the key
    hash configured for the matched issuer, [Response] returns that very
    response (hence the same raw bytes) with a nil error; the success
    count goes up by one and no other count changes. *)
Theorem Response_match_released ord src ctx req w iss rid
    (resp : Response) (o : ocsp.Response) (s' : Σ) :
  checkRequest SerialToString ord src req = (iss, None) →
  gomap_lookup (issuers src) iss = Some rid →
  SourceResponse (wrapped src) ctx req (inner w) = (Done (Some resp, None), s') →
  ocspResponse resp = Some o →
  ocsp.ResponderKeyHash o = keyHash rid →
  ∃ w', filterSource_Response SerialToString ord src ctx req w
        = (Done (Some resp, None), w')
        ∧ counts w' = bump "success" (counts w)
        ∧ count (counts w') "success" = S (count (counts w) "success")
        ∧ (∀ l, l ≠ "success"%string → count (counts w') l = count (counts w) l)
        ∧ logs w' = logs w.
Proof.
  intros Hreq Hrid Hwr Ho Heq.
  rewrite (Response_checked _ _ _ _ _ _ _ _ _ Hreq Hwr).
  unfold checkResponse. rewrite Hrid, Ho. simpl.
  assert (bytes_Equal (keyHash rid) (ocsp.ResponderKeyHash o) = true) as ->
    by (apply bytes_Equal_eq; congruence).
  simpl. eexists. split; [reflexivity |]. simpl.
  split; [done |]. split; [apply count_bump_eq |].
  split; [| done]. intros l Hl. by apply count_bump_ne.
Qed.

(** C4: a request whose hash algorithm is not the configured one gets a
    not-found error and a nil response, and the wrapped source is not
    called: no call is recorded and its state is untouched. *)
Theorem Response_unsupported_hash ord src ctx req w :
  ocsp.HashAlgorithm req ≠ hashAlgorithm src →
  ∃ e w', filterSource_Response SerialToString ord src ctx req w
          = (Done (None, Some e), w')
          ∧ IsNotFound e = true
          ∧ calls w' = calls w
          ∧ inner w' = inner w.
Proof.
  intros Halg.
  destruct (checkRequest SerialToString ord src req) as [iss [e|]] eqn:Hreq.
  - rewrite (Response_request_filtered _ _ _ _ _ _ _ _ Hreq).
    apply checkRequest_rejects in Hreq as [_ Hnf]. eauto 10.
  - apply checkRequest_accepts in Hreq as (Heq & _). done.
Qed.

(** C5: with a non-empty prefix list, a request whose serial string
    starts with none of the prefixes gets a not-found error and the
    wrapped source is not called; with an empty prefix list, the verdict
    of [checkRequest] does not depend on the serial number and is never
    the serial-prefix error. *)
Theorem Response_serial_prefix ord src ctx req w :
  (serialPrefixes src ≠ [] →
   (∀ p, p ∈ serialPrefixes src →
         String.prefix p (SerialToString (ocsp.SerialNumber req)) = false) →
   ∃ e w', filterSource_Response SerialToString ord src ctx req w
           = (Done (None, Some e), w')
           ∧ IsNotFound e = true
           ∧ calls w' = calls w
           ∧ inner w' = inner w)
  ∧ (serialPrefixes src = [] →
     (checkRequest SerialToString ord src req).2
       ≠ Some (wrapError "unrecognized serial prefix: %w" [] ErrNotFound)
     ∧ ∀ serial : Z,
         checkRequest SerialToString ord src
           {| ocsp.HashAlgorithm := ocsp.HashAlgorithm req;
              ocsp.IssuerNameHash := ocsp.IssuerNameHash req;
              ocsp.IssuerKeyHash := ocsp.IssuerKeyHash req;
              ocsp.SerialNumber := serial |}
         = checkRequest SerialToString ord src req).
Proof.
  split.
  - intros Hne Hnone.
    destruct (checkRequest SerialToString ord src req) as [iss [e|]] eqn:Hreq.
    + rewrite (Response_request_filtered _ _ _ _ _ _ _ _ Hreq).
      apply checkRequest_rejects in Hreq as [_ Hnf]. eauto 10.
    + apply checkRequest_accepts in Hreq as (_ & [Hnil|Hm] & _); [done |].
      apply matchPrefix_false in Hnone. congruence.
  - intros Hnil. unfold checkRequest. rewrite Hnil. simpl.
    split; [| done]. repeat case_match; simpl; congruence.
Qed.

(** C6: with the issuers enumerated in any order the map allows, a
    request whose issuer key hash is that of no configured issuer gets a
    not-found error and the wrapped source is not called.  When the search
    of the issuer map is reached (the hash algorithm and the serial prefix
    are accepted) and the key hash is that of a configured issuer,
    [checkRequest] returns, without error, the name ID of a configured
    issuer with that key hash (the very issuer, when no other shares the
    key hash), and the result of [Response] on a response of the wrapped
    source is the verdict of [checkResponse] for that name ID. *)
Theorem Response_issuer_key_hash ord src ctx req w :
  rangeOf src ord →
  ((∀ id rid, gomap_lookup (issuers src) id = Some rid →
              keyHash rid ≠ ocsp.IssuerKeyHash req) →
   ∃ e w', filterSource_Response SerialToString ord src ctx req w
           = (Done (None, Some e), w')
           ∧ IsNotFound e = true
           ∧ calls w' = calls w
           ∧ inner w' = inner w)
  ∧ (∀ id rid,
       gomap_lookup (issuers src) id = Some rid →
       keyHash rid = ocsp.IssuerKeyHash req →
       ocsp.HashAlgorithm req = hashAlgorithm src →
       serialPrefixes src = []
       ∨ matchPrefix (SerialToString (ocsp.SerialNumber req)) (serialPrefixes src) = true →
       ∃ iss rid',
         checkRequest SerialToString ord src req = (iss, None)
         ∧ gomap_lookup (issuers src) iss = Some rid'
         ∧ keyHash rid' = ocsp.IssuerKeyHash req
         ∧ ((∀ id' rid'', gomap_lookup (issuers src) id' = Some rid'' →
                          keyHash rid'' = keyHash rid → id' = id) → iss = id)
         ∧ ∀ resp s',
             SourceResponse (wrapped src) ctx req (inner w) = (Done (resp, None), s') →
             (filterSource_Response SerialToString ord src ctx req w).1
             = match checkResponse src iss resp with
               | Done None => Done (resp, None)
               | Done (Some e) => Done (None, Some e)
               | Panic msg => Panic msg
               end).
Proof.
  intros Hord. split.
  - intros Hnone.
    destruct (checkRequest SerialToString ord src req) as [iss [e|]] eqn:Hreq.
    + rewrite (Response_request_filtered _ _ _ _ _ _ _ _ Hreq).
      apply checkRequest_rejects in Hreq as [_ Hnf]. eauto 10.
    + apply checkRequest_accepts in Hreq as (_ & _ & Hfind).
      apply findIssuer_Some in Hfind as (rid & Hin & Hk).
      apply (rangeOf_elem _ _ _ _ Hord) in Hin. by destruct (Hnone _ _ Hin).
  - intros id rid Hid Hk Halg Hpre.
    destruct (findIssuer (ocsp.IssuerKeyHash req) ord) as [iss|] eqn:Hfind.
    + pose proof Hfind as Hfound.
      apply findIssuer_Some in Hfound as (rid' & Hin & Hk').
      apply (rangeOf_elem _ _ _ _ Hord) in Hin.
      assert (checkRequest SerialToString ord src req = (iss, None)) as Hreq
        by (by apply checkRequest_accepts).
      exists iss, rid'. repeat split; try done.
      * intros Honly. apply (Honly _ _ Hin). congruence.
      * intros resp s' Hwr.
        rewrite (Response_checked _ _ _ _ _ _ _ _ _ Hreq Hwr).
        by destruct (checkResponse src iss resp) as [[e|]|msg].
    + exfalso. eapply findIssuer_None; [exact Hfind | | exact Hk].
      apply (rangeOf_elem _ _ _ _ Hord), Hid.
Qed.

(** C7: every error with which [checkRequest] rejects a request wraps the
    not-found error and is what [Response] returns, and each of the three
    grounds of rejection (hash algorithm, serial prefix, issuer key hash)
    gives such an error.  When the request is admitted and the wrapped
    source returns, without error, a response whose responder key hash
    differs from the key hash of the matched issuer, [Response] returns
    the error of [checkResponse], which does not match the not-found
    error; the same holds of any error of [checkResponse]. *)
Theorem Response_error_kinds ord src ctx req w :
  (∀ iss e,
     checkRequest SerialToString ord src req = (iss, Some e) →
     (filterSource_Response SerialToString ord src ctx req w).1 = Done (None, Some e)
     ∧ IsNotFound e = true)
  ∧ (ocsp.HashAlgorithm req ≠ hashAlgorithm src
     ∨ (serialPrefixes src ≠ []
        ∧ ∀ p, p ∈ serialPrefixes src →
               String.prefix p (SerialToString (ocsp.SerialNumber req)) = false)
     ∨ (∀ id rid, (id, rid) ∈ ord → keyHash rid ≠ ocsp.IssuerKeyHash req) →
     ∃ e, (checkRequest SerialToString ord src req).2 = Some e
          ∧ (filterSource_Response SerialToString ord src ctx req w).1
            = Done (None, Some e)
          ∧ IsNotFound e = true)
  ∧ (∀ iss rid (o : ocsp.Response) (raw : bytes) (s' : Σ),
       checkRequest SerialToString ord src req = (iss, None) →
       gomap_lookup (issuers src) iss = Some rid →
       SourceResponse (wrapped src) ctx req (inner w)
         = (Done (Some {| ocspResponse := Some o; Raw := raw |}, None), s') →
       ocsp.ResponderKeyHash o ≠ keyHash rid →
       ∃ e, checkResponse src iss (Some {| ocspResponse := Some o; Raw := raw |})
            = Done (Some e)
            ∧ (filterSource_Response SerialToString ord src ctx req w).1
              = Done (None, Some e)
            ∧ IsNotFound e = false)
  ∧ (∀ iss resp s' e,
       checkRequest SerialToString ord src req = (iss, None) →
       SourceResponse (wrapped src) ctx req (inner w) = (Done (resp, None), s') →
       checkResponse src iss resp = Done (Some e) →
       (filterSource_Response SerialToString ord src ctx req w).1 = Done (None, Some e)
       ∧ IsNotFound e = false).
Proof.
  split; [| split; [| split]].
  - intros iss e Hreq.
    rewrite (Response_request_filtered _ _ _ _ _ _ _ _ Hreq).
    split; [done |]. by apply checkRequest_rejects in Hreq as [_ ?].
  - intros Hground.
    destruct (checkRequest SerialToString ord src req) as [iss [e|]] eqn:Hreq.
    + exists e. rewrite (Response_request_filtered _ _ _ _ _ _ _ _ Hreq).
      split; [done |]. split; [done |].
      by apply checkRequest_rejects in Hreq as [_ ?].
    + exfalso. apply checkRequest_accepts in Hreq as (Halg & Hpre & Hfind).
      destruct Hground as [Hne|[[Hne Hnone]|Hnone]].
      * done.
      * destruct Hpre as [Hnil|Hm]; [done |].
        apply matchPrefix_false in Hnone. congruence.
      * apply findIssuer_Some in Hfind as (rid & Hin & Hk).
        by apply (Hnone _ _ Hin).
  - intros iss rid o raw s' Hreq Hrid Hwr Hne.
    rewrite (Response_checked _ _ _ _ _ _ _ _ _ Hreq Hwr).
    unfold checkResponse. rewrite Hrid. simpl.
    assert (bytes_Equal (keyHash rid) (ocsp.ResponderKeyHash o) = false) as ->
      by (apply bytes_Equal_neq; congruence).
    simpl. eauto.
  - intros iss resp s' e Hreq Hwr Hresp.
    rewrite (Response_checked _ _ _ _ _ _ _ _ _ Hreq Hwr), Hresp.
    split; [done |]. by apply checkResponse_error in Hresp.
Qed.
End filter_claims.

(** ** The claims on a filter for issuers A and B over the in-memory store *)

(** C2 at work: serial 1 is stored with a response of issuer B; asked for
    under issuer A, it is not released. *)
Lemma Response_mismatch_not_released_witness :
  ∃ e w', filterSource_Response example.SerialToString
            (gomap_entries (Some example.issuersAB)) (example.filterAB [])
            example.ctx (example.request crypto.SHA1 example.Ka 1) example.world0
          = (Done (None, Some e), w').
Proof.
  eapply (Response_mismatch_not_released example.SerialToString _ _ _ _ _
            11 example.ridA _ _ None tt).
  - vm_compute. reflexivity.
  - reflexivity.
  - reflexivity.
  - vm_compute. discriminate.
Defined.

(** C3 at work: serial 2 is stored with a response of issuer A and is
    released as stored. *)
Lemma Response_match_released_witness :
  ∃ w', filterSource_Response example.SerialToString
          (gomap_entries (Some example.issuersAB)) (example.filterAB [])
          example.ctx (example.request crypto.SHA1 example.Ka 2) example.world0
        = (Done (Some example.resp2A, None), w')
        ∧ counts w' = bump "success" (counts example.world0)
        ∧ count (counts w') "success" = S (count (counts example.world0) "success")
        ∧ (∀ l, l ≠ "success"%string →
                count (counts w') l = count (counts example.world0) l)
        ∧ logs w' = logs example.world0.
Proof.
  eapply (Response_match_released example.SerialToString _ _ _ _ _
            11 example.ridA example.resp2A _ tt).
  - vm_compute. reflexivity.
  - reflexivity.
  - reflexivity.
  - reflexivity.
  - reflexivity.
Defined.

(** C4 at work: a SHA-256 request. *)
Lemma Response_unsupported_hash_witness :
  ∃ e w', filterSource_Response example.SerialToString
            (gomap_entries (Some example.issuersAB)) (example.filterAB [])
            example.ctx (example.request crypto.SHA256 example.Ka 2) example.world0
          = (Done (None, Some e), w')
          ∧ IsNotFound e = true
          ∧ calls w' = calls example.world0
          ∧ inner w' = inner example.world0.
Proof.
  apply (Response_unsupported_hash example.SerialToString).
  vm_compute. discriminate.
Defined.

(** C5 at work: serial 2 under the prefix list ["ff"], and under none. *)
Lemma Response_serial_prefix_witness :
  (∃ e w', filterSource_Response example.SerialToString
             (gomap_entries (Some example.issuersAB)) (example.filterAB ["ff"%string])
             example.ctx (example.request crypto.SHA1 example.Ka 2) example.world0
           = (Done (None, Some e), w')
           ∧ IsNotFound e = true
           ∧ calls w' = calls example.world0
           ∧ inner w' = inner example.world0)
  ∧ (checkRequest example.SerialToString (gomap_entries (Some example.issuersAB))
       (example.filterAB []) (example.request crypto.SHA1 example.Ka 2)).2
    ≠ Some (wrapError "unrecognized serial prefix: %w" [] ErrNotFound).
Proof.
  split.
  - apply (proj1 (Response_serial_prefix example.SerialToString
                    (gomap_entries (Some example.issuersAB))
                    (example.filterAB ["ff"%string]) example.ctx
                    (example.request crypto.SHA1 example.Ka 2) example.world0)).
    + simpl. discriminate.
    + intros p Hp. apply list_elem_of_singleton in Hp as ->.
      vm_compute. reflexivity.
  - apply (proj2 (Response_serial_prefix example.SerialToString
                    (gomap_entries (Some example.issuersAB))
                    (example.filterAB []) example.ctx
                    (example.request crypto.SHA1 example.Ka 2) example.world0)).
    reflexivity.
Defined.

(** C6 at work, with the issuers enumerated B first: the key hash of an
    unknown issuer, and the key hash of issuer A. *)
Lemma Response_issuer_key_hash_witness :
  (∃ e w', filterSource_Response example.SerialToString
             [(22, example.ridB); (11, example.ridA)] (example.filterAB [])
             example.ctx (example.request crypto.SHA1 example.Kc 2) example.world0
           = (Done (None, Some e), w')
           ∧ IsNotFound e = true
           ∧ calls w' = calls example.world0
           ∧ inner w' = inner example.world0)
  ∧ ∃ iss, checkRequest example.SerialToString
             [(22, example.ridB); (11, example.ridA)] (example.filterAB [])
             (example.request crypto.SHA1 example.Ka 2) = (iss, None).
Proof.
  assert (rangeOf (example.filterAB []) [(22, example.ridB); (11, example.ridA)])
    as Hord by (unfold rangeOf; vm_compute; apply perm_swap).
  split.
  - apply (proj1 (Response_issuer_key_hash example.SerialToString _ _
                    example.ctx (example.request crypto.SHA1 example.Kc 2)
                    example.world0 Hord)).
    intros id rid Hid. simpl in Hid. unfold example.issuersAB in Hid.
    apply lookup_insert_Some in Hid as [[_ <-]|[_ Hid]]; [discriminate |].
    apply lookup_insert_Some in Hid as [[_ <-]|[_ Hid]]; [discriminate |].
    by rewrite lookup_empty in Hid.
  - destruct (proj2 (Response_issuer_key_hash example.SerialToString _ _
                       example.ctx (example.request crypto.SHA1 example.Ka 2)
                       example.world0 Hord)
                    11 example.ridA) as (iss & _ & Hreq & _).
    + reflexivity.
    + reflexivity.
    + reflexivity.
    + left. reflexivity.
    + exists iss. exact Hreq.
Defined.

(** C7 at work: the rejection of a SHA-256 request, and the rejection of
    the response of issuer B stored for serial 1. *)
Lemma Response_error_kinds_witness :
  (∃ e, (filterSource_Response example.SerialToString
           (gomap_entries (Some example.issuersAB)) (example.filterAB [])
           example.ctx (example.request crypto.SHA256 example.Ka 1)
           example.world0).1 = Done (None, Some e)
        ∧ IsNotFound e = true)
  ∧ ∃ e, (filterSource_Response example.SerialToString
            (gomap_entries (Some example.issuersAB)) (example.filterAB [])
            example.ctx (example.request crypto.SHA1 example.Ka 1)
            example.world0).1 = Done (None, Some e)
         ∧ IsNotFound e = false.
Proof.
  split.
  - destruct (proj1 (proj2 (Response_error_kinds example.SerialToString
                (gomap_entries (Some example.issuersAB)) (example.filterAB [])
                example.ctx (example.request crypto.SHA256 example.Ka 1)
                example.world0))) as (e & _ & Hrun & Hnf).
    + left. vm_compute. discriminate.
    + by exists e.
  - destruct (proj1 (proj2 (proj2 (Response_error_kinds example.SerialToString
                (gomap_entries (Some example.issuersAB)) (example.filterAB [])
                example.ctx (example.request crypto.SHA1 example.Ka 1)
                example.world0)))
                11 example.ridA
                {| ocsp.Status := 0; ocsp.RespSerialNumber := 1;
                   ocsp.ResponderKeyHash := example.Kb |}
                (Raw example.resp1B) tt) as (e & _ & Hrun & Hnf).
    + vm_compute. reflexivity.
    + reflexivity.
    + reflexivity.
    + vm_compute. discriminate.
    + by exists e.
Defined.

(** ** The in-memory source *)

(** The decimal form tells serial numbers apart. *)
Lemma decimal_inj (n n' : Z) : decimal n = decimal n' → n = n'.
Proof. unfold decimal. apply (inj pretty). Qed.

(** *** Storing the loaded tokens one after the other *)

Lemma foldl_storeEntry_notin (entries : list (string * Response))
    (g : gmap string (option Response)) (k : string) :
  k ∉ entries.*1 → foldl storeEntry g entries !! k = g !! k.
Proof.
  revert g. induction entries as [|[k' r] entries IH]; intros g Hk; simpl; [done |].
  rewrite fmap_cons, not_elem_of_cons in Hk. destruct Hk as [Hne Hk].
  rewrite IH by done. unfold storeEntry. simpl. by rewrite lookup_insert_ne.
Qed.

Lemma foldl_storeEntry_last (l1 l2 : list (string * Response)) (k : string)
    (r : Response) (g : gmap string (option Response)) :
  k ∉ l2.*1 → foldl storeEntry g (l1 ++ (k, r) :: l2) !! k = Some (Some r).
Proof.
  intros Hk. rewrite foldl_app. simpl.
  rewrite foldl_storeEntry_notin by done.
  unfold storeEntry at 1. simpl. by rewrite lookup_insert_eq.
Qed.

Lemma foldl_storeEntry_dom (entries : list (string * Response))
    (g : gmap string (option Response)) :
  dom (foldl storeEntry g entries) = dom g ∪ list_to_set entries.*1.
Proof.
  revert g. induction entries as [|[k r] entries IH]; intros g.
  - simpl. by rewrite (right_id_L ∅ (∪)).
  - cbn [foldl]. rewrite IH, fmap_cons, list_to_set_cons.
    unfold storeEntry. cbn [fst snd]. rewrite dom_insert_L.
    by rewrite (comm_L (∪) {[k]} (dom g)), (assoc_L (∪)).
Qed.

Lemma foldl_storeEntry_size (entries : list (string * Response)) :
  size (foldl storeEntry ∅ entries) = length (remove_dups entries.*1).
Proof.
  rewrite <- size_dom, foldl_storeEntry_dom, dom_empty_L, (left_id_L ∅ (∪)).
  rewrite <- (size_list_to_set (C:=gset string) (remove_dups entries.*1))
    by apply NoDup_remove_dups.
  f_equal. apply set_eq. intros k.
  by rewrite !elem_of_list_to_set, elem_of_remove_dups.
Qed.

(** The last entry stored under a key. *)
Lemma last_entry (entries : list (string * Response)) (k : string) :
  k ∈ entries.*1 → ∃ l1 r l2, entries = l1 ++ (k, r) :: l2 ∧ k ∉ l2.*1.
Proof.
  induction entries as [|[k0 r0] es IH]; simpl; [by intros ?%elem_of_nil |].
  intros Hin. destruct (decide (k ∈ es.*1)) as [Hes|Hes].
  - destruct (IH Hes) as (l1 & r & l2 & -> & Hl2).
    by exists ((k0, r0) :: l1), r, l2.
  - apply elem_of_cons in Hin as [->|Hin]; [| done].
    by exists [], r0, es.
Qed.

Lemma foldl_storeEntry_lookup_Some (entries : list (string * Response))
    (k : string) (v : option Response) :
  foldl storeEntry ∅ entries !! k = Some v → ∃ r, (k, r) ∈ entries ∧ v = Some r.
Proof.
  intros Hkv. destruct (decide (k ∈ entries.*1)) as [Hin|Hnin].
  - destruct (last_entry _ _ Hin) as (l1 & r & l2 & -> & Hl2).
    rewrite foldl_storeEntry_last in Hkv by done. injection Hkv as <-.
    exists r. split; [| done]. apply elem_of_app. right. left.
  - rewrite foldl_storeEntry_notin in Hkv by done.
    by rewrite lookup_empty in Hkv.
Qed.

Lemma foldl_storeEntry_is_Some (entries : list (string * Response))
    (k : string) (r : Response) :
  (k, r) ∈ entries → is_Some (foldl storeEntry ∅ entries !! k).
Proof.
  intros Hin.
  assert (k ∈ entries.*1) as Hk by (apply list_elem_of_fmap; by exists (k, r)).
  destruct (last_entry _ _ Hk) as (l1 & r' & l2 & -> & Hl2).
  rewrite foldl_storeEntry_last by done. by eexists.
Qed.

Lemma remove_dups_length_le {A} `{EqDecision A} (l : list A) :
  (length (remove_dups l) ≤ length l)%nat.
Proof.
  induction l as [|x l IH]; simpl; [done |]. case_decide; simpl; lia.
Qed.

Lemma remove_dups_length_lt {A} `{EqDecision A} (l1 l2 : list A) (x : A) :
  x ∈ l2 → (length (remove_dups (l1 ++ x :: l2)) < length (l1 ++ x :: l2))%nat.
Proof.
  intros Hx. induction l1 as [|y l1 IH]; simpl.
  - case_decide; [| done]. pose proof (remove_dups_length_le l2). lia.
  - case_decide; simpl; lia.
Qed.

Section memory_properties.
Variable ReadFile : string → string + error.
Variable DecodeString : string → bytes + error.
Variable ParseResponse : bytes → ocsp.Response + error.

Local Abbreviation loaded := (loaded DecodeString ParseResponse).
Local Abbreviation malformed := (malformed DecodeString ParseResponse).
Local Abbreviation countMalformed := (countMalformed DecodeString ParseResponse).

(** A loaded token is not empty, decodes and parses, and is stored under
    the decimal form of the serial number of its response together with
    the decoded bytes. *)
Lemma loaded_Some (b64 k : string) (r : Response) :
  loaded b64 = Some (k, r) ↔
    b64 ≠ ""%string
    ∧ ∃ der response,
        DecodeString b64 = inl der
        ∧ ParseResponse der = inl response
        ∧ k = decimal (ocsp.RespSerialNumber response)
        ∧ r = {| ocspResponse := Some response; Raw := der |}.
Proof.
  unfold loaded. destruct (String.eqb_spec b64 "") as [->|Hne].
  { split; [done | by intros [? _]]. }
  destruct (DecodeString b64) as [der|e].
  2:{ split; [done | by intros (_ & ? & ? & [=] & _)]. }
  destruct (ParseResponse der) as [response|e] eqn:Hparse.
  2:{ split; [done |]. intros (_ & ? & ? & [= <-] & Hp & _). congruence. }
  split.
  - intros [= <- <-]. split; [done |]. by exists der, response.
  - intros (_ & ? & ? & [= <-] & Hp & -> & ->).
    rewrite Hparse in Hp. by injection Hp as <-.
Qed.

(** The loop never panics and never stops early: it stores every token
    that loads, in file order, and logs one error line for each malformed
    token. *)
Lemma loadResponses_run (responsesB64 : list string)
    (g : gmap string (option Response)) (ls : list logLine) :
  ∃ lines,
    loadResponses DecodeString ParseResponse responsesB64 (Some g) ls
    = (Done (Some (foldl storeEntry g (omap loaded responsesB64))), ls ++ lines)
    ∧ Forall (λ l, level l = LevelErr) lines
    ∧ length lines = countMalformed responsesB64.
Proof.
  unfold countMalformed.
  revert g ls. induction responsesB64 as [|b64 rest IH]; intros g ls.
  { exists []. simpl. by rewrite app_nil_r. }
  simpl. unfold malformed, loaded.
  destruct (String.eqb b64 "") eqn:Hempty; simpl.
  { apply IH. }
  destruct (DecodeString b64) as [der|e]; simpl.
  - destruct (ParseResponse der) as [response|e]; simpl.
    + unfold bind, lift. simpl. apply IH.
    + unfold bind, logLine_to.
      edestruct IH as (lines & -> & Hlvl & Hlen).
      eexists (_ :: lines). rewrite <- app_assoc. simpl.
      split; [reflexivity |]. split; [by constructor | by rewrite Hlen].
  - unfold bind, logLine_to.
    edestruct IH as (lines & -> & Hlvl & Hlen).
    eexists (_ :: lines). rewrite <- app_assoc. simpl.
    split; [reflexivity |]. split; [by constructor | by rewrite Hlen].
Qed.

(** [NewMemorySourceFromFile] on a file that can be read. *)
Lemma NewMemorySourceFromFile_run (responseFile : string) (logger : Logger)
    (fileContents : string) (ls : list logLine) :
  ReadFile responseFile = inl fileContents →
  let m := foldl storeEntry ∅ (omap loaded (splitSpace fileContents)) in
  ∃ lines,
    NewMemorySourceFromFile ReadFile DecodeString ParseResponse responseFile logger ls
    = (Done (Some (NewMemorySource (Some m) logger), None),
       ls ++ lines ++ [{| level := LevelInfo;
                          format := "Read %d OCSP responses";
                          operands := [LArg (ArgInt (Z.of_nat (size m)))] |}])
    ∧ Forall (λ l, level l = LevelErr) lines
    ∧ length lines = countMalformed (splitSpace fileContents).
Proof.
  intros Hread m. unfold NewMemorySourceFromFile. rewrite Hread.
  destruct (loadResponses_run (splitSpace fileContents) ∅ ls)
    as (lines & Hrun & Hlvl & Hlen).
  exists lines. unfold bind. rewrite Hrun. simpl.
  unfold ret. by rewrite <- app_assoc.
Qed.

(** [InMemorySource.Response] as a map lookup. *)
Lemma InMemorySource_Response_lookup {Σ} (src : InMemorySource) (ctx : Context)
    (request : ocsp.Request) (s : Σ) :
  InMemorySource_Response src ctx request s
  = (Done match gomap_lookup (responses src) (decimal (ocsp.SerialNumber request)) with
          | Some response => (response, None)
          | None => (None, Some ErrNotFound)
          end, s).
Proof.
  unfold InMemorySource_Response. by destruct (gomap_lookup _ _).
Qed.
End memory_properties.

Section memory_claims.
Variable ReadFile : string → string + error.
Variable DecodeString : string → bytes + error.
Variable ParseResponse : bytes → ocsp.Response + error.

Local Abbreviation loaded := (loaded DecodeString ParseResponse).
Local Abbreviation countMalformed := (countMalformed DecodeString ParseResponse).
Local Abbreviation NewMemorySourceFromFile :=
  (NewMemorySourceFromFile ReadFile DecodeString ParseResponse).

(** C8: on a file that can be read, [NewMemorySourceFromFile] returns a
    source and no error, whatever the tokens are; it logs one error line
    for each non-empty token that fails to decode or to parse, and then the
    count.  A key of the resulting map is the decimal serial number of a
    response that a non-empty token between the space characters of the
    file decodes and parses to, and the value is that response with the
    decoded bytes; every such token has its key in the map.  So the source
    answers a request exactly when some token holds a valid response with
    the serial number of the request. *)
Theorem NewMemorySourceFromFile_loads (responseFile : string) (logger : Logger)
    (fileContents : string) (ls : list logLine) :
  ReadFile responseFile = inl fileContents →
  ∃ m lines,
    NewMemorySourceFromFile responseFile logger ls
    = (Done (Some (NewMemorySource (Some m) logger), None),
       ls ++ lines ++ [{| level := LevelInfo;
                          format := "Read %d OCSP responses";
                          operands := [LArg (ArgInt (Z.of_nat (size m)))] |}])
    ∧ Forall (λ l, level l = LevelErr) lines
    ∧ length lines = countMalformed (splitSpace fileContents)
    ∧ (∀ k v, m !! k = Some v →
              ∃ b64 der response,
                b64 ∈ splitSpace fileContents ∧ b64 ≠ ""%string
                ∧ DecodeString b64 = inl der
                ∧ ParseResponse der = inl response
                ∧ k = decimal (ocsp.RespSerialNumber response)
                ∧ v = Some {| ocspResponse := Some response; Raw := der |})
    ∧ (∀ b64 der response,
         b64 ∈ splitSpace fileContents → b64 ≠ ""%string →
         DecodeString b64 = inl der →
         ParseResponse der = inl response →
         is_Some (m !! decimal (ocsp.RespSerialNumber response)))
    ∧ (∀ (Σ : Type) (ctx : Context) (request : ocsp.Request) (s : Σ),
         (∃ resp, InMemorySource_Response (NewMemorySource (Some m) logger) ctx request s
                  = (Done (Some resp, None), s))
         ↔ ∃ b64 der response,
             b64 ∈ splitSpace fileContents ∧ b64 ≠ ""%string
             ∧ DecodeString b64 = inl der
             ∧ ParseResponse der = inl response
             ∧ ocsp.RespSerialNumber response = ocsp.SerialNumber request).
Proof.
  intros Hread.
  destruct (NewMemorySourceFromFile_run ReadFile DecodeString ParseResponse
              _ logger _ ls Hread)
    as (lines & Hrun & Hlvl & Hlen).
  set (tokens := splitSpace fileContents) in *.
  set (m := foldl storeEntry ∅ (omap loaded tokens)) in *.
  assert (∀ k v, m !! k = Some v →
            ∃ b64 der response,
              b64 ∈ tokens ∧ b64 ≠ ""%string
              ∧ DecodeString b64 = inl der ∧ ParseResponse der = inl response
              ∧ k = decimal (ocsp.RespSerialNumber response)
              ∧ v = Some {| ocspResponse := Some response; Raw := der |}) as Hsound.
  { intros k v Hkv.
    apply foldl_storeEntry_lookup_Some in Hkv as (r & Hin & ->).
    apply list_elem_of_omap in Hin as (b64 & Hb64 & Hload).
    apply loaded_Some in Hload as (Hne & der & response & Hdec & Hparse & -> & ->).
    by exists b64, der, response. }
  assert (∀ b64 der response,
            b64 ∈ tokens → b64 ≠ ""%string →
            DecodeString b64 = inl der → ParseResponse der = inl response →
            is_Some (m !! decimal (ocsp.RespSerialNumber response))) as Hcomplete.
  { intros b64 der response Hb64 Hne Hdec Hparse.
    apply (foldl_storeEntry_is_Some _ _ {| ocspResponse := Some response; Raw := der |}).
    apply list_elem_of_omap. exists b64. split; [done |].
    apply loaded_Some. split; [done |]. by exists der, response. }
  exists m, lines. repeat split; try done.
  - intros [resp Hresp]. rewrite InMemorySource_Response_lookup in Hresp.
    simpl in Hresp.
    destruct (m !! decimal (ocsp.SerialNumber request)) as [v|] eqn:Hkv;
      [| by injection Hresp].
    destruct (Hsound _ _ Hkv) as (b64 & der & response & ? & ? & ? & ? & Hk & ?).
    apply decimal_inj in Hk. by exists b64, der, response.
  - intros (b64 & der & response & Hb64 & Hne & Hdec & Hparse & Hserial).
    destruct (Hcomplete _ _ _ Hb64 Hne Hdec Hparse) as [v Hkv].
    rewrite Hserial in Hkv.
    destruct (Hsound _ _ Hkv) as (? & der' & response' & _ & _ & _ & _ & _ & ->).
    eexists. rewrite InMemorySource_Response_lookup. simpl. by rewrite Hkv.
Qed.

(** C9: [InMemorySource.Response] depends on the request through its
    serial number only: two requests with the same serial number get the
    same answer, whatever their issuer hashes, hash algorithm and context.
    When the map holds the decimal form of the serial number, the stored
    response comes back with a nil error; otherwise a nil response comes
    back with [ErrNotFound].  The state is never changed. *)
Theorem InMemorySource_Response_by_serial {Σ : Type} (src : InMemorySource)
    (ctx : Context) (request : ocsp.Request) (s : Σ) :
  (∀ ctx' request',
     ocsp.SerialNumber request' = ocsp.SerialNumber request →
     InMemorySource_Response src ctx' request' s
     = InMemorySource_Response src ctx request s)
  ∧ (∀ response,
       gomap_lookup (responses src) (decimal (ocsp.SerialNumber request)) = Some response →
       InMemorySource_Response src ctx request s = (Done (response, None), s))
  ∧ (gomap_lookup (responses src) (decimal (ocsp.SerialNumber request)) = None →
     InMemorySource_Response src ctx request s = (Done (None, Some ErrNotFound), s)
     ∧ IsNotFound ErrNotFound = true).
Proof.
  split; [| split].
  - intros ctx' request' Hserial.
    by rewrite !InMemorySource_Response_lookup, Hserial.
  - intros response Hk. by rewrite InMemorySource_Response_lookup, Hk.
  - intros Hk. by rewrite InMemorySource_Response_lookup, Hk.
Qed.

(** C10: when two tokens of the file decode and parse to responses with
    the same serial number and no later token does, the map holds for that
    serial number the response and the bytes of the second one, and the
    source answers with it.  Nothing is logged for the first one: the
    error lines are as many as the malformed tokens.  The count that is
    reported is the size of the map, which is the number of distinct keys
    among the valid responses and so is less than their number. *)
Theorem NewMemorySourceFromFile_last_wins (responseFile : string) (logger : Logger)
    (fileContents : string) (ls : list logLine)
    (ts0 ts1 ts2 : list string) (t1 t2 : string) (der1 der2 : bytes)
    (response1 response2 : ocsp.Response) :
  ReadFile responseFile = inl fileContents →
  splitSpace fileContents = ts0 ++ t1 :: ts1 ++ t2 :: ts2 →
  t1 ≠ ""%string → DecodeString t1 = inl der1 → ParseResponse der1 = inl response1 →
  t2 ≠ ""%string → DecodeString t2 = inl der2 → ParseResponse der2 = inl response2 →
  ocsp.RespSerialNumber response1 = ocsp.RespSerialNumber response2 →
  (∀ t der response,
     t ∈ ts2 → t ≠ ""%string →
     DecodeString t = inl der → ParseResponse der = inl response →
     ocsp.RespSerialNumber response ≠ ocsp.RespSerialNumber response2) →
  ∃ m lines,
    NewMemorySourceFromFile responseFile logger ls
    = (Done (Some (NewMemorySource (Some m) logger), None),
       ls ++ lines ++ [{| level := LevelInfo;
                          format := "Read %d OCSP responses";
                          operands := [LArg (ArgInt (Z.of_nat (size m)))] |}])
    ∧ Forall (λ l, level l = LevelErr) lines
    ∧ length lines = countMalformed (splitSpace fileContents)
    ∧ m !! decimal (ocsp.RespSerialNumber response2)
      = Some (Some {| ocspResponse := Some response2; Raw := der2 |})
    ∧ (∀ (Σ : Type) (ctx : Context) (request : ocsp.Request) (s : Σ),
         ocsp.SerialNumber request = ocsp.RespSerialNumber response2 →
         InMemorySource_Response (NewMemorySource (Some m) logger) ctx request s
         = (Done (Some {| ocspResponse := Some response2; Raw := der2 |}, None), s))
    ∧ size m = length (remove_dups (omap loaded (splitSpace fileContents)).*1)
    ∧ (size m < length (omap loaded (splitSpace fileContents)))%nat.
Proof.
  intros Hread Htokens Hne1 Hdec1 Hparse1 Hne2 Hdec2 Hparse2 Hserial Hlast.
  destruct (NewMemorySourceFromFile_run ReadFile DecodeString ParseResponse
              _ logger _ ls Hread) as (lines & Hrun & Hlvl & Hlen).
  set (m := foldl storeEntry ∅ (omap loaded (splitSpace fileContents))) in *.
  set (n := ocsp.RespSerialNumber response2) in *.
  set (r1 := {| ocspResponse := Some response1; Raw := der1 |}).
  set (r2 := {| ocspResponse := Some response2; Raw := der2 |}).
  assert (loaded t1 = Some (decimal n, r1)) as Ht1.
  { apply loaded_Some. split; [done |]. exists der1, response1.
    by rewrite Hserial. }
  assert (loaded t2 = Some (decimal n, r2)) as Ht2.
  { apply loaded_Some. split; [done |]. by exists der2, response2. }
  assert (omap loaded (splitSpace fileContents)
          = (omap loaded ts0 ++ (decimal n, r1) :: omap loaded ts1)
              ++ (decimal n, r2) :: omap loaded ts2) as Hentries.
  { rewrite Htokens, omap_app. simpl. rewrite Ht1, omap_app. simpl.
    by rewrite Ht2, <- app_assoc. }
  assert (decimal n ∉ (omap loaded ts2).*1) as Hnot.
  { intros ([k r] & Hk & Hin)%list_elem_of_fmap. simpl in Hk. subst k.
    apply list_elem_of_omap in Hin as (t & Ht & Hload).
    apply loaded_Some in Hload as (Hne & der & response & Hdec & Hparse & Hkey & _).
    apply decimal_inj in Hkey. by apply (Hlast t der response). }
  assert (m !! decimal n = Some (Some r2)) as Hm.
  { unfold m. rewrite Hentries. by apply foldl_storeEntry_last. }
  exists m, lines. split; [done |]. split; [done |]. split; [done |].
  split; [done |]. split; [| split].
  - intros Σ ctx request s Hreq.
    rewrite InMemorySource_Response_lookup. simpl. by rewrite Hreq, Hm.
  - apply foldl_storeEntry_size.
  - unfold m. rewrite foldl_storeEntry_size, <- (length_fmap fst), Hentries.
    rewrite <- app_assoc, fmap_app. cbn [app fmap list_fmap fst].
    apply remove_dups_length_lt.
    rewrite fmap_app. apply elem_of_app. right. left.
Qed.
End memory_claims.

(** ** The claims on the example files *)

(** C8 at work: the file with two valid responses and one malformed token. *)
Lemma NewMemorySourceFromFile_loads_witness :
  ∃ m lines,
    NewMemorySourceFromFile example.ReadFile example.DecodeString
      example.ParseResponse "two.b64" (LoggerId 1) []
    = (Done (Some (NewMemorySource (Some m) (LoggerId 1)), None),
       [] ++ lines ++ [{| level := LevelInfo;
                          format := "Read %d OCSP responses";
                          operands := [LArg (ArgInt (Z.of_nat (size m)))] |}])
    ∧ length lines = 1%nat
    ∧ size m = 2%nat.
Proof.
  destruct (NewMemorySourceFromFile_loads example.ReadFile example.DecodeString
              example.ParseResponse "two.b64" (LoggerId 1) _ [] eq_refl)
    as (m & lines & Hrun & _ & Hlen & _).
  exists m, lines. split; [exact Hrun |]. split; [exact Hlen |].
  vm_compute in Hrun. injection Hrun as <- _. vm_compute. reflexivity.
Defined.

(** C9 at work on the store of the examples: serial 1 under two different
    issuers and hash algorithms, and serial 3, which is not stored. *)
Lemma InMemorySource_Response_by_serial_witness :
  InMemorySource_Response example.store example.ctx
    (example.request crypto.SHA256 example.Kc 1) tt
  = InMemorySource_Response example.store example.ctx
      (example.request crypto.SHA1 example.Ka 1) tt
  ∧ InMemorySource_Response example.store example.ctx
      (example.request crypto.SHA1 example.Ka 1) tt
    = (Done (Some example.resp1B, None), tt)
  ∧ InMemorySource_Response example.store example.ctx
      (example.request crypto.SHA1 example.Ka 3) tt
    = (Done (None, Some ErrNotFound), tt).
Proof.
  split; [| split].
  - apply (proj1 (InMemorySource_Response_by_serial example.store example.ctx
                    (example.request crypto.SHA1 example.Ka 1) tt)).
    reflexivity.
  - apply (proj1 (proj2 (InMemorySource_Response_by_serial example.store example.ctx
                           (example.request crypto.SHA1 example.Ka 1) tt))).
    vm_compute. reflexivity.
  - apply (proj2 (proj2 (InMemorySource_Response_by_serial example.store example.ctx
                           (example.request crypto.SHA1 example.Ka 3) tt))).
    vm_compute. reflexivity.
Defined.

(** C10 at work: in the second file serial 1 comes first with the response
    of issuer B and last with the response of issuer A; the one error line
    is for the token that does not parse. *)
Lemma NewMemorySourceFromFile_last_wins_witness :
  ∃ m lines,
    NewMemorySourceFromFile example.ReadFile example.DecodeString
      example.ParseResponse "dup.b64" (LoggerId 1) []
    = (Done (Some (NewMemorySource (Some m) (LoggerId 1)), None),
       [] ++ lines ++ [{| level := LevelInfo;
                          format := "Read %d OCSP responses";
                          operands := [LArg (ArgInt (Z.of_nat (size m)))] |}])
    ∧ length lines = 1%nat
    ∧ m !! decimal 1 = Some (Some example.resp1A)
    ∧ (size m < 3)%nat.
Proof.
  destruct (NewMemorySourceFromFile_last_wins example.ReadFile example.DecodeString
              example.ParseResponse "dup.b64" (LoggerId 1) _ []
              [] ["MAMKAQE="; ""; "/wA="; ""]%string [] "MAMKAQA=" "MAMKAQI="
              (Raw example.resp1B) (Raw example.resp1A)
              {| ocsp.Status := 0; ocsp.RespSerialNumber := 1;
                 ocsp.ResponderKeyHash := example.Kb |}
              {| ocsp.Status := 1; ocsp.RespSerialNumber := 1;
                 ocsp.ResponderKeyHash := example.Ka |}
              eq_refl)
    as (m & lines & Hrun & _ & Hlen & Hm & _ & _ & Hsize).
  - vm_compute. reflexivity.
  - discriminate.
  - reflexivity.
  - reflexivity.
  - discriminate.
  - reflexivity.
  - reflexivity.
  - reflexivity.
  - intros t der response Hin. by apply elem_of_nil in Hin.
  - exists m, lines. split; [exact Hrun |]. split; [exact Hlen |].
    split; [exact Hm | exact Hsize].
Defined.

(** The round trip of the specification, by evaluation: the file with two
    valid responses and one malformed token gives a source that answers
    serials 1 and 2 with the stored responses and no other serial, after
    one logged error. *)
Example two_valid_one_malformed :
  match NewMemorySourceFromFile example.ReadFile example.DecodeString
          example.ParseResponse "two.b64" (LoggerId 1) [] with
  | (Done (Some src, None), lines) =>
      InMemorySource_Response src example.ctx
        (example.request crypto.SHA1 example.Ka 1) tt
      = (Done (Some example.resp1B, None), tt)
      ∧ InMemorySource_Response src example.ctx
          (example.request crypto.SHA1 example.Ka 2) tt
        = (Done (Some example.resp2A, None), tt)
      ∧ InMemorySource_Response src example.ctx
          (example.request crypto.SHA1 example.Ka 3) tt
        = (Done (None, Some ErrNotFound), tt)
      ∧ gomap_len (responses src) = 2%nat
      ∧ level <$> lines = [LevelErr; LevelInfo]
  | _ => False
  end.
Proof. vm_compute. repeat split. Qed.

(** The central scenario of the specification, by evaluation: issuers A
    and B are configured and the store holds for serial 1 a response of
    issuer B; a request for serial 1 under issuer A reaches the store and
    is rejected at the response check, with an error that is not of the
    not-found kind. *)
Example serial_collision_rejected :
  match filterSource_Response example.SerialToString
          (gomap_entries (Some example.issuersAB)) (example.filterAB ["00"%string])
          example.ctx (example.request crypto.SHA1 example.Ka 1) example.world0 with
  | (Done (None, Some e), w') =>
      IsNotFound e = false
      ∧ calls w' = [(example.ctx, example.request crypto.SHA1 example.Ka 1)]
      ∧ count (counts w') "response_filtered" = 1%nat
      ∧ count (counts w') "success" = 0%nat
  | _ => False
  end.
Proof. vm_compute. repeat split. Qed.

(** * Further properties of the filtering source *)

Section filter_more.
Context {W Σ : Type} `{!Source W Σ}.
Variable SerialToString : Z → string.

Implicit Types (src : filterSource W) (req : ocsp.Request) (ctx : Context).
Implicit Types (w : World Σ) (ord : list (issuance.IssuerNameID * responderID)).
Implicit Types (iss : issuance.IssuerNameID) (rid : responderID).

Lemma matchPrefix_true (s : string) (prefixes : list string) :
  matchPrefix s prefixes = true ↔ ∃ p, p ∈ prefixes ∧ String.prefix p s = true.
Proof.
  induction prefixes as [|p ps IH]; simpl.
  - split; [done | by intros (p & ?%elem_of_nil & _)].
  - destruct (String.prefix p s) eqn:Hp.
    + split; [| done]. intros _. exists p. split; [left | done].
    + rewrite IH. split.
      * intros (q & Hq & Hqs). exists q. split; [by right | done].
      * intros (q & [->|Hq]%elem_of_cons & Hqs); [congruence | eauto].
Qed.

(** A panic of the wrapped source passes through [Response]. *)
Lemma Response_wrapped_panic ord src ctx req w iss (msg : string) (s' : Σ) :
  checkRequest SerialToString ord src req = (iss, None) →
  SourceResponse (wrapped src) ctx req (inner w) = (Panic msg, s') →
  filterSource_Response SerialToString ord src ctx req w
  = (Panic msg,
     {| counts := counts w; logs := logs w;
        calls := calls w ++ [(ctx, req)]; inner := s' |}).
Proof.
  intros Hreq Hwr. unfold filterSource_Response. rewrite Hreq.
  unfold bind, callWrapped. by rewrite Hwr.
Qed.

(** The issuer that [checkRequest] returns is configured, with the key
    hash of the request. *)
Lemma checkRequest_issuer ord src req iss :
  rangeOf src ord →
  checkRequest SerialToString ord src req = (iss, None) →
  ∃ rid, gomap_lookup (issuers src) iss = Some rid
         ∧ keyHash rid = ocsp.IssuerKeyHash req.
Proof.
  intros Hord (_ & _ & Hfind)%checkRequest_accepts.
  apply findIssuer_Some in Hfind as (rid & Hin & Hk).
  exists rid. split; [| done]. by apply (rangeOf_elem _ _ _ _ Hord).
Qed.

Lemma checkResponse_accepts src iss (resp : option Response) :
  checkResponse src iss resp = Done None →
  ∃ rid r o, gomap_lookup (issuers src) iss = Some rid
             ∧ resp = Some r ∧ ocspResponse r = Some o
             ∧ ocsp.ResponderKeyHash o = keyHash rid.
Proof.
  unfold checkResponse.
  destruct (gomap_lookup (issuers src) iss) as [rid|]; [| done].
  destruct resp as [r|]; [| done].
  destruct (ocspResponse r) as [o|] eqn:Ho; [| done].
  destruct (bytes_Equal (keyHash rid) (ocsp.ResponderKeyHash o)) eqn:Heq; [| done].
  intros _. apply bytes_Equal_eq in Heq. by exists rid, r, o.
Qed.

(** X1: an error of the wrapped source is handed on as it is, so that a
    not-found error stays one; a response that came with it is dropped,
    the count of wrapped errors goes up by one, no other count changes
    and nothing is logged. *)
Theorem Response_wrapped_error_passes ord src ctx req w iss
    (resp : option Response) (e : error) (s' : Σ) :
  checkRequest SerialToString ord src req = (iss, None) →
  SourceResponse (wrapped src) ctx req (inner w) = (Done (resp, Some e), s') →
  ∃ w', filterSource_Response SerialToString ord src ctx req w
        = (Done (None, Some e), w')
        ∧ count (counts w') "wrapped_error" = S (count (counts w) "wrapped_error")
        ∧ (∀ l, l ≠ "wrapped_error"%string → count (counts w') l = count (counts w) l)
        ∧ logs w' = logs w
        ∧ inner w' = s'.
Proof.
  intros Hreq Hwr. rewrite (Response_wrapped_error _ _ _ _ _ _ _ _ _ _ Hreq Hwr).
  eexists. split; [reflexivity |]. simpl.
  split; [apply count_bump_eq |]. split; [| done].
  intros l Hl. by apply count_bump_ne.
Qed.

(** X2: a call of [Response] that returns ends in exactly one of four
    ways, each with its own label counted once: the request is rejected
    (not-found error, one debug line, no call of the wrapped source); the
    wrapped source fails (nothing logged); the response is withheld (an
    error that is not not-found, one warning line with the issuer key hash
    and the serial of the request); or a response is released with a nil
    error (nothing logged).  A nil response and a nil error never come
    back together. *)
Theorem Response_four_outcomes ord src ctx req w
    (r : option Response * option error) (w' : World Σ) :
  filterSource_Response SerialToString ord src ctx req w = (Done r, w') →
  (counts w' = bump "request_filtered" (counts w)
   ∧ (∃ e, r = (None, Some e) ∧ IsNotFound e = true
           ∧ logs w' = logs w ++
               [{| level := LevelDebug;
                   format := "Not responding to filtered OCSP request: %s";
                   operands := [LErrorText e] |}])
   ∧ calls w' = calls w)
  ∨ (counts w' = bump "wrapped_error" (counts w)
     ∧ (∃ e, r = (None, Some e))
     ∧ logs w' = logs w)
  ∨ (counts w' = bump "response_filtered" (counts w)
     ∧ (∃ e, r = (None, Some e) ∧ IsNotFound e = false)
     ∧ logs w' = logs w ++
         [{| level := LevelWarning;
             format := "OCSP Response not sent (issuer and serial mismatch) for CA=%s, Serial=%s";
             operands := [LArg (ArgHex (ocsp.IssuerKeyHash req));
                          LArg (ArgStr (SerialToString (ocsp.SerialNumber req)))] |}])
  ∨ (counts w' = bump "success" (counts w)
     ∧ (∃ resp, r = (Some resp, None))
     ∧ logs w' = logs w).
Proof.
  intros Hrun.
  destruct (checkRequest SerialToString ord src req) as [iss [e|]] eqn:Hreq.
  { rewrite (Response_request_filtered _ _ _ _ _ _ _ _ Hreq) in Hrun.
    injection Hrun as <- <-. left. simpl. split; [done |]. split; [| done].
    exists e. by apply checkRequest_rejects in Hreq as [_ ?]. }
  destruct (SourceResponse (wrapped src) ctx req (inner w))
    as [[[resp [e|]]|msg] s'] eqn:Hwr.
  - rewrite (Response_wrapped_error _ _ _ _ _ _ _ _ _ _ Hreq Hwr) in Hrun.
    injection Hrun as <- <-. right. left. simpl. eauto.
  - rewrite (Response_checked _ _ _ _ _ _ _ _ _ Hreq Hwr) in Hrun.
    destruct (checkResponse src iss resp) as [[e|]|msg] eqn:Hresp.
    + injection Hrun as <- <-. right. right. left. simpl.
      split; [done |]. split; [| done].
      exists e. by apply checkResponse_error in Hresp.
    + injection Hrun as <- <-. right. right. right. simpl.
      apply checkResponse_accepts in Hresp as (_ & r0 & _ & _ & -> & _). eauto.
    + discriminate.
  - by rewrite (Response_wrapped_panic _ _ _ _ _ _ _ _ Hreq Hwr) in Hrun.
Qed.

(** X3: [Response] calls the wrapped source once, with the context and the
    request it was given, when [checkRequest] admits the request, and not
    at all when it rejects it; this holds whether the call returns or
    panics. *)
Theorem Response_calls_wrapped ord src ctx req w :
  calls (filterSource_Response SerialToString ord src ctx req w).2
  = match (checkRequest SerialToString ord src req).2 with
    | None => calls w ++ [(ctx, req)]
    | Some _ => calls w
    end.
Proof.
  destruct (checkRequest SerialToString ord src req) as [iss [e|]] eqn:Hreq.
  { by rewrite (Response_request_filtered _ _ _ _ _ _ _ _ Hreq). }
  destruct (SourceResponse (wrapped src) ctx req (inner w))
    as [[[resp [e|]]|msg] s'] eqn:Hwr.
  - by rewrite (Response_wrapped_error _ _ _ _ _ _ _ _ _ _ Hreq Hwr).
  - rewrite (Response_checked _ _ _ _ _ _ _ _ _ Hreq Hwr).
    by destruct (checkResponse src iss resp) as [[e|]|msg].
  - by rewrite (Response_wrapped_panic _ _ _ _ _ _ _ _ Hreq Hwr).
Qed.

(** X4: whatever the wrapped source does, a response that [Response]
    releases is the one the wrapped source returned without error for this
    request, its responder key hash is the issuer key hash of the request,
    and the request has the configured hash algorithm; it comes with a nil
    error. *)
Theorem Response_released_is_for_issuer ord src ctx req w
    (resp : Response) (err : option error) (w' : World Σ) :
  rangeOf src ord →
  filterSource_Response SerialToString ord src ctx req w = (Done (Some resp, err), w') →
  err = None
  ∧ ocsp.HashAlgorithm req = hashAlgorithm src
  ∧ (∃ s', SourceResponse (wrapped src) ctx req (inner w) = (Done (Some resp, None), s'))
  ∧ ∃ o, ocspResponse resp = Some o
         ∧ ocsp.ResponderKeyHash o = ocsp.IssuerKeyHash req.
Proof.
  intros Hord Hrun.
  destruct (checkRequest SerialToString ord src req) as [iss [e|]] eqn:Hreq.
  { by rewrite (Response_request_filtered _ _ _ _ _ _ _ _ Hreq) in Hrun. }
  destruct (SourceResponse (wrapped src) ctx req (inner w))
    as [[[resp0 [e|]]|msg] s'] eqn:Hwr.
  - by rewrite (Response_wrapped_error _ _ _ _ _ _ _ _ _ _ Hreq Hwr) in Hrun.
  - rewrite (Response_checked _ _ _ _ _ _ _ _ _ Hreq Hwr) in Hrun.
    destruct (checkResponse src iss resp0) as [[e|]|msg] eqn:Hresp; try done.
    injection Hrun as -> <- <-.
    apply checkResponse_accepts in Hresp as (rid & r & o & Hrid & [= <-] & Ho & Hk).
    destruct (checkRequest_issuer _ _ _ _ Hord Hreq) as (rid' & Hrid' & Hk').
    pose proof Hreq as (Halg & _)%checkRequest_accepts.
    split; [done |]. split; [done |]. split; [by exists s' |].
    exists o. split; [done |]. congruence.
  - by rewrite (Response_wrapped_panic _ _ _ _ _ _ _ _ Hreq Hwr) in Hrun.
Qed.

(** X5: called with a request that is not nil, on a filter whose logger
    and counter are not nil, [Response] panics in two cases only, both
    after admission: the wrapped source panics, or it returns a nil error
    with a nil response or with a response whose decoded part is nil,
    which [checkResponse] then dereferences. *)
Theorem Response_panics_iff ord src ctx req w :
  rangeOf src ord →
  (∃ msg w', filterSource_Response SerialToString ord src ctx req w = (Panic msg, w'))
  ↔ (checkRequest SerialToString ord src req).2 = None
    ∧ ((∃ msg s', SourceResponse (wrapped src) ctx req (inner w) = (Panic msg, s'))
       ∨ (∃ resp s',
            SourceResponse (wrapped src) ctx req (inner w) = (Done (resp, None), s')
            ∧ (resp = None ∨ ∃ r, resp = Some r ∧ ocspResponse r = None))).
Proof.
  intros Hord.
  destruct (checkRequest SerialToString ord src req) as [iss [e|]] eqn:Hreq.
  { rewrite (Response_request_filtered _ _ _ _ _ _ _ _ Hreq).
    split; [by intros (? & ? & ?) | by intros [? _]]. }
  destruct (checkRequest_issuer _ _ _ _ Hord Hreq) as (rid & Hrid & _).
  destruct (SourceResponse (wrapped src) ctx req (inner w))
    as [[[resp [e|]]|msg] s'] eqn:Hwr.
  - rewrite (Response_wrapped_error _ _ _ _ _ _ _ _ _ _ Hreq Hwr).
    split; [by intros (? & ? & ?) |].
    intros [_ [(? & ? & ?)|(? & ? & ? & _)]]; done.
  - rewrite (Response_checked _ _ _ _ _ _ _ _ _ Hreq Hwr).
    unfold checkResponse. rewrite Hrid. simpl. split.
    + intros (msg & w' & Hrun). split; [done |]. right. exists resp, s'.
      split; [done |]. destruct resp as [r|]; [| by left]. right.
      exists r. split; [done |]. destruct (ocspResponse r) as [o|]; [| done].
      by destruct (negb _).
    + intros [_ [(? & ? & ?)|(resp' & s'' & [= <- <-] & Hnil)]]; [done |].
      destruct Hnil as [->|(r & -> & ->)]; eauto.
  - rewrite (Response_wrapped_panic _ _ _ _ _ _ _ _ Hreq Hwr).
    split; [| eauto]. intros _. split; [done |]. left. eauto.
Qed.

(** X6: for a request that [checkRequest] has admitted, the lookup of the
    issuer in [checkResponse] succeeds, so the only error [checkResponse]
    can then return is the mismatch of the responder; the error for an
    unknown issuer name ID is out of reach of [Response]. *)
Theorem checkResponse_after_admission ord src req iss :
  rangeOf src ord →
  checkRequest SerialToString ord src req = (iss, None) →
  ∀ (resp : option Response) (e : error),
    checkResponse src iss resp = Done (Some e) →
    e = errorString "responder does not match requested issuer" [].
Proof.
  intros Hord Hreq resp e.
  destruct (checkRequest_issuer _ _ _ _ Hord Hreq) as (rid & Hrid & _).
  unfold checkResponse. rewrite Hrid.
  destruct resp as [r|]; [| done]. destruct (ocspResponse r) as [o|]; [| done].
  destruct (negb _); [by intros [= <-] | done].
Qed.

(** X7: the order in which the runtime enumerates the issuer map has no
    influence on [Response]: result, counts, log lines and calls are the
    same for any two enumerations, also when two issuers share a key
    hash and [checkRequest] may return either name ID. *)
Theorem Response_any_order ord1 ord2 src ctx req w :
  rangeOf src ord1 →
  rangeOf src ord2 →
  filterSource_Response SerialToString ord1 src ctx req w
  = filterSource_Response SerialToString ord2 src ctx req w.
Proof.
  intros Hord1 Hord2.
  destruct (checkRequest SerialToString ord1 src req) as [iss1 [e1|]] eqn:Hreq1;
    destruct (checkRequest SerialToString ord2 src req) as [iss2 [e2|]] eqn:Hreq2.
  - rewrite (Response_request_filtered _ _ _ _ _ _ _ _ Hreq1).
    rewrite (Response_request_filtered _ _ _ _ _ _ _ _ Hreq2).
    revert Hreq1 Hreq2. unfold checkRequest.
    destruct (negb _); [congruence |]. destruct (_ && _); [congruence |].
    destruct (findIssuer _ ord1); [done |]. destruct (findIssuer _ ord2); [done |].
    congruence.
  - exfalso. destruct (checkRequest_issuer _ _ _ _ Hord2 Hreq2) as (rid & Hrid & Hk).
    pose proof Hreq2 as (Halg & Hpre & _)%checkRequest_accepts.
    revert Hreq1. unfold checkRequest. rewrite Halg, N.eqb_refl. simpl.
    destruct Hpre as [->| ->]; simpl;
      [| rewrite andb_false_r];
      (destruct (findIssuer _ ord1) eqn:Hfind; [done |]; intros _;
       eapply findIssuer_None; [exact Hfind | | exact Hk];
       by apply (rangeOf_elem _ _ _ _ Hord1)).
  - exfalso. destruct (checkRequest_issuer _ _ _ _ Hord1 Hreq1) as (rid & Hrid & Hk).
    pose proof Hreq1 as (Halg & Hpre & _)%checkRequest_accepts.
    revert Hreq2. unfold checkRequest. rewrite Halg, N.eqb_refl. simpl.
    destruct Hpre as [->| ->]; simpl;
      [| rewrite andb_false_r];
      (destruct (findIssuer _ ord2) eqn:Hfind; [done |]; intros _;
       eapply findIssuer_None; [exact Hfind | | exact Hk];
       by apply (rangeOf_elem _ _ _ _ Hord2)).
  - destruct (checkRequest_issuer _ _ _ _ Hord1 Hreq1) as (rid1 & Hrid1 & Hk1).
    destruct (checkRequest_issuer _ _ _ _ Hord2 Hreq2) as (rid2 & Hrid2 & Hk2).
    assert (∀ resp, checkResponse src iss1 resp = checkResponse src iss2 resp) as Hsame.
    { intros resp. unfold checkResponse. rewrite Hrid1, Hrid2, Hk1, Hk2. done. }
    destruct (SourceResponse (wrapped src) ctx req (inner w))
      as [[[resp [e|]]|msg] s'] eqn:Hwr.
    + rewrite (Response_wrapped_error _ _ _ _ _ _ _ _ _ _ Hreq1 Hwr).
      by rewrite (Response_wrapped_error _ _ _ _ _ _ _ _ _ _ Hreq2 Hwr).
    + rewrite (Response_checked _ _ _ _ _ _ _ _ _ Hreq1 Hwr).
      by rewrite (Response_checked _ _ _ _ _ _ _ _ _ Hreq2 Hwr), Hsame.
    + rewrite (Response_wrapped_panic _ _ _ _ _ _ _ _ Hreq1 Hwr).
      by rewrite (Response_wrapped_panic _ _ _ _ _ _ _ _ Hreq2 Hwr).
Qed.

(** X8: [checkRequest] admits a request exactly when its hash algorithm is
    the configured one, its serial string starts with one of the
    configured prefixes unless none is configured, and its issuer key
    hash is the key hash of a configured issuer. *)
Theorem checkRequest_admits_iff ord src req :
  rangeOf src ord →
  (checkRequest SerialToString ord src req).2 = None
  ↔ ocsp.HashAlgorithm req = hashAlgorithm src
    ∧ (serialPrefixes src = []
       ∨ ∃ p, p ∈ serialPrefixes src
              ∧ String.prefix p (SerialToString (ocsp.SerialNumber req)) = true)
    ∧ ∃ id rid, gomap_lookup (issuers src) id = Some rid
                ∧ keyHash rid = ocsp.IssuerKeyHash req.
Proof.
  intros Hord. split.
  - destruct (checkRequest SerialToString ord src req) as [iss [e|]] eqn:Hreq; [done |].
    intros _. destruct (checkRequest_issuer _ _ _ _ Hord Hreq) as (rid & Hrid & Hk).
    apply checkRequest_accepts in Hreq as (Halg & Hpre & _).
    split; [done |]. split; [| by exists iss, rid].
    destruct Hpre as [?|Hm]; [by left | right]. by apply matchPrefix_true.
  - intros (Halg & Hpre & id & rid & Hrid & Hk).
    destruct (findIssuer (ocsp.IssuerKeyHash req) ord) as [iss|] eqn:Hfind.
    + assert (checkRequest SerialToString ord src req = (iss, None)) as ->; [| done].
      apply checkRequest_accepts. split; [done |]. split; [| done].
      destruct Hpre as [?|Hm]; [by left | right]. by apply matchPrefix_true.
    + exfalso. eapply findIssuer_None; [exact Hfind | | exact Hk].
      by apply (rangeOf_elem _ _ _ _ Hord).
Qed.

(** X9: an empty string among the configured prefixes is a prefix of every
    serial string, so with it no request is rejected for its serial. *)
Theorem checkRequest_empty_prefix ord src req :
  ""%string ∈ serialPrefixes src →
  (checkRequest SerialToString ord src req).2
  ≠ Some (wrapError "unrecognized serial prefix: %w" [] ErrNotFound).
Proof.
  intros Hin. unfold checkRequest.
  assert (matchPrefix (SerialToString (ocsp.SerialNumber req)) (serialPrefixes src)
          = true) as ->.
  { apply matchPrefix_true. exists ""%string. split; [done |].
    by destruct (SerialToString _). }
  rewrite andb_false_r. destruct (negb _); [done |].
  by destruct (findIssuer _ _).
Qed.

(** X10: a filter whose issuer map is nil or empty rejects every request
    with a not-found error and never calls the wrapped source. *)
Theorem Response_no_issuers ord src ctx req w :
  rangeOf src ord →
  gomap_len (issuers src) = 0%nat →
  ∃ e w', filterSource_Response SerialToString ord src ctx req w
          = (Done (None, Some e), w')
          ∧ IsNotFound e = true
          ∧ calls w' = calls w
          ∧ inner w' = inner w.
Proof.
  intros Hord Hlen.
  destruct (checkRequest SerialToString ord src req) as [iss [e|]] eqn:Hreq.
  - rewrite (Response_request_filtered _ _ _ _ _ _ _ _ Hreq).
    apply checkRequest_rejects in Hreq as [_ Hnf]. eauto 10.
  - exfalso. destruct (checkRequest_issuer _ _ _ _ Hord Hreq) as (rid & Hrid & _).
    destruct (issuers src) as [g|]; simpl in *; [| done].
    apply map_size_empty_iff in Hlen. subst g. by rewrite lookup_empty in Hrid.
Qed.
End filter_more.

(** * Further properties of the in-memory source *)

(** ** Splitting at the space characters *)

Lemma string_append_cons (c : ascii) (s r : string) :
  String c s +:+ r = String c (s +:+ r).
Proof. reflexivity. Qed.

Lemma string_append_empty_r (s : string) : s +:+ "" = s.
Proof.
  induction s as [|c s IH]; [done |]. by rewrite string_append_cons, IH.
Qed.

Lemma splitSpace_not_nil (s : string) : splitSpace s ≠ [].
Proof.
  induction s as [|c s IH]; simpl; [done |].
  destruct (isSpace c); [done |]. by destruct (splitSpace s).
Qed.

Lemma splitSpace_prepend (t rest : string) :
  hasSpace t = false →
  splitSpace (t +:+ rest)
  = match splitSpace rest with
    | [] => [t]
    | piece :: pieces => (t +:+ piece) :: pieces
    end.
Proof.
  induction t as [|c t IH].
  - intros _. change ("" +:+ rest) with rest.
    pose proof (splitSpace_not_nil rest). by destruct (splitSpace rest).
  - intros Hct. simpl in Hct. apply orb_false_elim in Hct as [Hc Ht].
    rewrite string_append_cons. cbn [splitSpace]. rewrite Hc, (IH Ht).
    by destruct (splitSpace rest).
Qed.

(** X11: tokens without space characters, written one after the other
    with one space character between them, are what the split gives
    back, in the same order. *)
Theorem splitSpace_concat (sep : ascii) (tokens : list string) :
  isSpace sep = true →
  tokens ≠ [] →
  Forall (λ t, hasSpace t = false) tokens →
  splitSpace (String.concat (String sep "") tokens) = tokens.
Proof.
  intros Hsep Hne Hall. induction Hall as [|t ts Ht Hts IH]; [done |].
  destruct ts as [|t' ts].
  - simpl. rewrite <- (string_append_empty_r t) at 1.
    rewrite (splitSpace_prepend _ _ Ht). simpl.
    by rewrite string_append_empty_r.
  - change (String.concat (String sep "") (t :: t' :: ts))
      with (t +:+ String sep (String.concat (String sep "") (t' :: ts))).
    rewrite (splitSpace_prepend _ _ Ht). cbn [splitSpace]. rewrite Hsep.
    rewrite string_append_empty_r. f_equal. by apply IH.
Qed.

(** X12: the split gives one piece more than the string has space
    characters, never an empty list; no piece holds a space character;
    and the pieces hold all the other characters. *)
Theorem splitSpace_pieces (s : string) :
  length (splitSpace s) = S (countSpaces s)
  ∧ Forall (λ t, hasSpace t = false) (splitSpace s)
  ∧ (sum_list (String.length <$> splitSpace s) + countSpaces s)%nat = String.length s.
Proof.
  induction s as [|c s (IHlen & IHall & IHsum)].
  { split; [done |]. split; [by repeat constructor | done]. }
  cbn [splitSpace countSpaces String.length]. rewrite <- IHsum.
  destruct (isSpace c) eqn:Hc.
  - rewrite fmap_cons. cbn [length sum_list_with String.length].
    split; [by rewrite IHlen |]. split; [by constructor |]. unfold id. lia.
  - destruct (splitSpace s) as [|piece pieces]; [done |].
    rewrite !fmap_cons. cbn [length sum_list_with String.length] in *.
    split; [done |]. inversion IHall as [|?? Hpiece Hpieces]; subst.
    split; [constructor; [cbn [hasSpace]; by rewrite Hc | done] |].
    unfold id. lia.
Qed.

(** The witness of X11: three tokens written on three lines. *)
Lemma splitSpace_concat_witness :
  splitSpace (String.concat (String "010" "") ["MAMKAQA="; "MAMKAQE="; "!!!"]%string)
  = ["MAMKAQA="; "MAMKAQE="; "!!!"]%string.
Proof.
  apply splitSpace_concat.
  - reflexivity.
  - discriminate.
  - repeat constructor.
Defined.

(** ** Loading a file *)

Lemma countSpaces_le (s : string) : (countSpaces s ≤ String.length s)%nat.
Proof.
  induction s as [|c s IH]; simpl; [done |]. destruct (isSpace c); lia.
Qed.

(** A string of space characters only splits into empty pieces. *)
Lemma splitSpace_blank (s : string) :
  countSpaces s = String.length s → Forall (λ t, t = ""%string) (splitSpace s).
Proof.
  induction s as [|c s IH]; cbn [splitSpace countSpaces String.length].
  { by repeat constructor. }
  pose proof (countSpaces_le s). destruct (isSpace c); [| lia].
  intros Hlen. constructor; [done |]. apply IH. lia.
Qed.

Lemma filter_length_Permutation {A} (f : A → bool) (l1 l2 : list A) :
  l1 ≡ₚ l2 → length (List.filter f l1) = length (List.filter f l2).
Proof.
  induction 1 as [|x l1 l2 _ IH|x y l|l1 l2 l3 _ IH1 _ IH2]; simpl.
  - done.
  - destruct (f x); simpl; by rewrite IH.
  - by destruct (f x), (f y).
  - by rewrite IH1.
Qed.

(** With distinct keys, an entry is stored under its key for good. *)
Lemma foldl_storeEntry_NoDup (entries : list (string * Response))
    (k : string) (r : Response) :
  NoDup entries.*1 → (k, r) ∈ entries →
  foldl storeEntry ∅ entries !! k = Some (Some r).
Proof.
  intros Hnd Hin.
  apply list_elem_of_split in Hin as (l1 & l2 & ->).
  apply foldl_storeEntry_last.
  rewrite fmap_app, fmap_cons in Hnd. apply NoDup_app in Hnd as (_ & _ & Hnd).
  by apply NoDup_cons in Hnd as [? _].
Qed.

Lemma foldl_storeEntry_Permutation (e1 e2 : list (string * Response)) :
  e1 ≡ₚ e2 → NoDup e1.*1 → foldl storeEntry ∅ e1 = foldl storeEntry ∅ e2.
Proof.
  intros Hperm Hnd1.
  assert (NoDup e2.*1) as Hnd2 by (by rewrite <- Hperm).
  apply map_eq. intros k. destruct (decide (k ∈ e1.*1)) as [Hin|Hnin].
  - apply list_elem_of_fmap in Hin as ([k' r] & -> & Hin). simpl.
    rewrite (foldl_storeEntry_NoDup _ _ _ Hnd1 Hin).
    rewrite Hperm in Hin. by rewrite (foldl_storeEntry_NoDup _ _ _ Hnd2 Hin).
  - rewrite foldl_storeEntry_notin by done.
    rewrite Hperm in Hnin. by rewrite foldl_storeEntry_notin.
Qed.

Section memory_more.
Variable ReadFile : string → string + error.
Variable DecodeString : string → bytes + error.
Variable ParseResponse : bytes → ocsp.Response + error.

(** [NewMemorySourceFromFile] on a file that cannot be read. *)
Lemma NewMemorySourceFromFile_unreadable (responseFile : string) (logger : Logger)
    (err : error) (ls : list logLine) :
  ReadFile responseFile = inr err →
  NewMemorySourceFromFile ReadFile DecodeString ParseResponse responseFile logger ls
  = (Done (None, Some err), ls).
Proof. intros Hread. unfold NewMemorySourceFromFile. by rewrite Hread. Qed.

(** The part of [NewMemorySourceFromFile] after the split. *)
Lemma NewMemorySourceFromFile_tokens (responseFile : string) (logger : Logger)
    (fileContents : string) (ls : list logLine) :
  ReadFile responseFile = inl fileContents →
  NewMemorySourceFromFile ReadFile DecodeString ParseResponse responseFile logger ls
  = bind (loadResponses DecodeString ParseResponse (splitSpace fileContents) (Some ∅))
      (λ responses,
         bind (logLine_to LevelInfo "Read %d OCSP responses"
                 [LArg (ArgInt (Z.of_nat (gomap_len responses)))])
           (λ _, ret (Some (NewMemorySource responses logger), None))) ls.
Proof. intros Hread. unfold NewMemorySourceFromFile. by rewrite Hread. Qed.

Local Abbreviation loaded := (loaded DecodeString ParseResponse).
Local Abbreviation malformed := (malformed DecodeString ParseResponse).
Local Abbreviation countMalformed := (countMalformed DecodeString ParseResponse).
Local Abbreviation NewMemorySourceFromFile :=
  (NewMemorySourceFromFile ReadFile DecodeString ParseResponse).

Lemma loaded_empty_tokens (tokens : list string) :
  Forall (λ t, t = ""%string) tokens →
  omap loaded tokens = [] ∧ countMalformed tokens = 0%nat.
Proof.
  unfold countMalformed.
  induction 1 as [|t ts -> _ [IH1 IH2]]; [done |]. simpl. by split.
Qed.

(** Every non-empty token either loads or is malformed. *)
Lemma tokens_accounted (tokens : list string) :
  length (List.filter nonEmpty tokens)
  = (length (omap loaded tokens) + countMalformed tokens)%nat.
Proof.
  unfold countMalformed.
  induction tokens as [|t ts IH]; [done |].
  cbn [List.filter omap list_omap]. unfold nonEmpty at 1, malformed at 1.
  destruct (loaded t) as [[k r]|] eqn:Hload.
  - apply loaded_Some in Hload as [Hne _].
    apply String.eqb_neq in Hne. rewrite Hne. simpl. by rewrite IH.
  - destruct (String.eqb t ""); simpl; rewrite IH; lia.
Qed.

(** The loop skips the empty tokens. *)
Lemma loadResponses_nonEmpty (tokens : list string)
    (g : option (gmap string (option Response))) (ls : list logLine) :
  loadResponses DecodeString ParseResponse tokens g ls
  = loadResponses DecodeString ParseResponse (List.filter nonEmpty tokens) g ls.
Proof.
  revert g ls. induction tokens as [|t ts IH]; intros g ls; [done |].
  cbn [List.filter]. unfold nonEmpty at 1.
  destruct (String.eqb t "") eqn:Hempty.
  - simpl. rewrite Hempty. apply IH.
  - cbn [negb loadResponses]. rewrite Hempty.
    destruct (DecodeString t) as [der|e].
    + destruct (ParseResponse der) as [response|e].
      * unfold bind, lift. by destruct (gomap_assign g _ _).
      * unfold bind. by destruct (logLine_to _ _ _ ls) as [[[]|msg] ls'].
    + unfold bind. by destruct (logLine_to _ _ _ ls) as [[[]|msg] ls'].
Qed.

(** X13: an empty file, or one of space characters only, gives a source
    with an empty map: no error, no error line, a count of zero, and
    [ErrNotFound] for every request. *)
Theorem NewMemorySourceFromFile_blank (responseFile : string) (logger : Logger)
    (fileContents : string) (ls : list logLine) :
  ReadFile responseFile = inl fileContents →
  countSpaces fileContents = String.length fileContents →
  NewMemorySourceFromFile responseFile logger ls
  = (Done (Some (NewMemorySource (Some ∅) logger), None),
     ls ++ [{| level := LevelInfo;
               format := "Read %d OCSP responses";
               operands := [LArg (ArgInt 0)] |}])
  ∧ ∀ (Σ : Type) (ctx : Context) (request : ocsp.Request) (s : Σ),
      InMemorySource_Response (NewMemorySource (Some ∅) logger) ctx request s
      = (Done (None, Some ErrNotFound), s).
Proof.
  intros Hread Hblank. split; [| done].
  destruct (NewMemorySourceFromFile_run ReadFile DecodeString ParseResponse
              _ logger _ ls Hread) as (lines & -> & _ & Hlen).
  destruct (loaded_empty_tokens _ (splitSpace_blank _ Hblank)) as [-> Hnone].
  rewrite Hnone in Hlen. apply nil_length_inv in Hlen as ->. done.
Qed.

(** X14: the only error [NewMemorySourceFromFile] returns is the one of
    reading the file, and then it returns no source and logs nothing; once
    the file is read it returns a source and a nil error.  Given a logger
    that is not nil, it does not panic. *)
Theorem NewMemorySourceFromFile_error (responseFile : string) (logger : Logger)
    (ls : list logLine) :
  match ReadFile responseFile with
  | inr err =>
      NewMemorySourceFromFile responseFile logger ls = (Done (None, Some err), ls)
  | inl _ =>
      ∃ src ls', NewMemorySourceFromFile responseFile logger ls
                 = (Done (Some src, None), ls')
  end.
Proof.
  destruct (ReadFile responseFile) as [fileContents|err] eqn:Hread.
  - destruct (NewMemorySourceFromFile_run ReadFile DecodeString ParseResponse
                _ logger _ ls Hread) as (lines & -> & _). eauto.
  - by apply NewMemorySourceFromFile_unreadable.
Qed.

(** X15: no non-empty token is dropped in silence: the non-empty tokens
    of the file are as many as the tokens that load and the error lines
    together, and the count that is reported is at most the number of
    tokens that load. *)
Theorem NewMemorySourceFromFile_accounts (responseFile : string) (logger : Logger)
    (fileContents : string) (ls : list logLine) :
  ReadFile responseFile = inl fileContents →
  ∃ m lines,
    NewMemorySourceFromFile responseFile logger ls
    = (Done (Some (NewMemorySource (Some m) logger), None),
       ls ++ lines ++ [{| level := LevelInfo;
                          format := "Read %d OCSP responses";
                          operands := [LArg (ArgInt (Z.of_nat (size m)))] |}])
    ∧ Forall (λ l, level l = LevelErr) lines
    ∧ length (List.filter nonEmpty (splitSpace fileContents))
      = (length (omap loaded (splitSpace fileContents)) + length lines)%nat
    ∧ (size m ≤ length (omap loaded (splitSpace fileContents)))%nat.
Proof.
  intros Hread.
  destruct (NewMemorySourceFromFile_run ReadFile DecodeString ParseResponse
              _ logger _ ls Hread) as (lines & Hrun & Hlvl & Hlen).
  eexists _, lines. split; [exact Hrun |]. split; [done |]. split.
  - rewrite Hlen. apply tokens_accounted.
  - rewrite foldl_storeEntry_size, <- (length_fmap fst).
    apply remove_dups_length_le.
Qed.

(** X16: only the non-empty tokens count: two files with the same
    non-empty tokens in the same order, however they are spaced, give the
    same source and the same log lines. *)
Theorem NewMemorySourceFromFile_spacing (file1 file2 : string) (logger : Logger)
    (contents1 contents2 : string) (ls : list logLine) :
  ReadFile file1 = inl contents1 →
  ReadFile file2 = inl contents2 →
  List.filter nonEmpty (splitSpace contents1)
  = List.filter nonEmpty (splitSpace contents2) →
  NewMemorySourceFromFile file1 logger ls = NewMemorySourceFromFile file2 logger ls.
Proof.
  intros Hread1 Hread2 Htokens.
  rewrite (NewMemorySourceFromFile_tokens _ _ _ _ Hread1).
  rewrite (NewMemorySourceFromFile_tokens _ _ _ _ Hread2).
  unfold bind at 1 3.
  by rewrite (loadResponses_nonEmpty (splitSpace contents1)),
             (loadResponses_nonEmpty (splitSpace contents2)), Htokens.
Qed.

(** X17: when the valid responses of a file have distinct serial numbers,
    the order of its tokens does not matter: a file with the same tokens
    in another order gives the same map, the same count and as many error
    lines. *)
Theorem NewMemorySourceFromFile_any_order (file1 file2 : string) (logger : Logger)
    (contents1 contents2 : string) (ls : list logLine) :
  ReadFile file1 = inl contents1 →
  ReadFile file2 = inl contents2 →
  splitSpace contents1 ≡ₚ splitSpace contents2 →
  NoDup (omap loaded (splitSpace contents1)).*1 →
  ∃ m lines1 lines2,
    NewMemorySourceFromFile file1 logger ls
    = (Done (Some (NewMemorySource (Some m) logger), None),
       ls ++ lines1 ++ [{| level := LevelInfo;
                           format := "Read %d OCSP responses";
                           operands := [LArg (ArgInt (Z.of_nat (size m)))] |}])
    ∧ NewMemorySourceFromFile file2 logger ls
      = (Done (Some (NewMemorySource (Some m) logger), None),
         ls ++ lines2 ++ [{| level := LevelInfo;
                             format := "Read %d OCSP responses";
                             operands := [LArg (ArgInt (Z.of_nat (size m)))] |}])
    ∧ length lines1 = length lines2.
Proof.
  intros Hread1 Hread2 Hperm Hnd.
  destruct (NewMemorySourceFromFile_run ReadFile DecodeString ParseResponse
              _ logger _ ls Hread1) as (lines1 & Hrun1 & _ & Hlen1).
  destruct (NewMemorySourceFromFile_run ReadFile DecodeString ParseResponse
              _ logger _ ls Hread2) as (lines2 & Hrun2 & _ & Hlen2).
  assert (foldl storeEntry ∅ (omap loaded (splitSpace contents2))
          = foldl storeEntry ∅ (omap loaded (splitSpace contents1))) as Hm.
  { symmetry. apply foldl_storeEntry_Permutation; [| done]. by rewrite Hperm. }
  rewrite Hm in Hrun2.
  eexists _, lines1, lines2. split; [exact Hrun1 |]. split; [exact Hrun2 |].
  rewrite Hlen1, Hlen2. by apply filter_length_Permutation.
Qed.
End memory_more.

(** * The filter over the in-memory source *)

Section filter_over_memory.
Context {Σ : Type}.
Variable SerialToString : Z → string.

(** X18: a filter that wraps an in-memory source releases a response
    exactly when it admits the request and the map holds, under the
    decimal serial number of the request, that response with a responder
    key hash equal to the issuer key hash of the request; when it admits
    the request and the map has no entry for the serial number, it
    returns [ErrNotFound] itself and counts a wrapped error. *)
Theorem filter_over_memory (ord : list (issuance.IssuerNameID * responderID))
    (src : filterSource InMemorySource) (ctx : Context) (req : ocsp.Request)
    (w : World Σ) (resp : Response) :
  rangeOf src ord →
  ((∃ w', filterSource_Response SerialToString ord src ctx req w
          = (Done (Some resp, None), w'))
   ↔ (checkRequest SerialToString ord src req).2 = None
     ∧ gomap_lookup (responses (wrapped src)) (decimal (ocsp.SerialNumber req))
       = Some (Some resp)
     ∧ ∃ o, ocspResponse resp = Some o
            ∧ ocsp.ResponderKeyHash o = ocsp.IssuerKeyHash req)
  ∧ ((checkRequest SerialToString ord src req).2 = None →
     gomap_lookup (responses (wrapped src)) (decimal (ocsp.SerialNumber req)) = None →
     ∃ w', filterSource_Response SerialToString ord src ctx req w
           = (Done (None, Some ErrNotFound), w')
           ∧ counts w' = bump "wrapped_error" (counts w)).
Proof.
  intros Hord.
  pose proof (InMemorySource_Response_lookup (wrapped src) ctx req (inner w)) as Hwr.
  change (InMemorySource_Response (wrapped src) ctx req (inner w))
    with (SourceResponse (wrapped src) ctx req (inner w)) in Hwr.
  destruct (checkRequest SerialToString ord src req) as [iss [e|]] eqn:Hreq.
  { rewrite (Response_request_filtered _ _ _ _ _ _ _ _ Hreq).
    split; [| done]. split; [by intros (? & ?) | by intros [? _]]. }
  destruct (checkRequest_issuer _ _ _ _ _ Hord Hreq) as (rid & Hrid & Hk).
  destruct (gomap_lookup (responses (wrapped src)) (decimal (ocsp.SerialNumber req)))
    as [stored|] eqn:Hlook.
  - rewrite (Response_checked _ _ _ _ _ _ _ _ _ Hreq Hwr).
    split; [| done]. unfold checkResponse. rewrite Hrid.
    destruct stored as [r|]; simpl.
    2:{ split; [by intros (? & ?) | by intros (_ & ? & _)]. }
    destruct (ocspResponse r) as [o|] eqn:Ho.
    2:{ split; [by intros (? & ?) |]. intros (_ & [= ->] & o & Ho' & _). congruence. }
    destruct (bytes_Equal (keyHash rid) (ocsp.ResponderKeyHash o)) eqn:Heq; simpl.
    + apply bytes_Equal_eq in Heq. split.
      * intros (w' & [= -> _]). split; [done |]. split; [done |].
        exists o. split; [done |]. congruence.
      * intros (_ & [= ->] & _). eauto.
    + apply bytes_Equal_neq in Heq. split; [by intros (? & ?) |].
      intros (_ & [= ->] & o' & Ho' & Hk'). congruence.
  - rewrite (Response_wrapped_error _ _ _ _ _ _ _ _ _ _ Hreq Hwr). split.
    + split; [by intros (? & ?) | by intros (_ & ? & _)].
    + intros _ _. eauto.
Qed.
End filter_over_memory.

(** * The further properties on the examples *)

(** X1 at work: serial 3 is not in the store. *)
Lemma Response_wrapped_error_passes_witness :
  ∃ w', filterSource_Response example.SerialToString
          (gomap_entries (Some example.issuersAB)) (example.filterAB [])
          example.ctx (example.request crypto.SHA1 example.Ka 3) example.world0
        = (Done (None, Some ErrNotFound), w')
        ∧ count (counts w') "wrapped_error"
          = S (count (counts example.world0) "wrapped_error")
        ∧ (∀ l, l ≠ "wrapped_error"%string →
                count (counts w') l = count (counts example.world0) l)
        ∧ logs w' = logs example.world0
        ∧ inner w' = tt.
Proof.
  apply (Response_wrapped_error_passes example.SerialToString _ _ _ _ _ 11 None).
  - vm_compute. reflexivity.
  - reflexivity.
Defined.

(** X2 at work: the response of issuer B for serial 1, asked for under
    issuer A, is withheld. *)
Lemma Response_four_outcomes_witness :
  ∃ r w',
    filterSource_Response example.SerialToString
      (gomap_entries (Some example.issuersAB)) (example.filterAB [])
      example.ctx (example.request crypto.SHA1 example.Ka 1) example.world0
    = (Done r, w')
    ∧ ∃ e, r = (None, Some e) ∧ IsNotFound e = false.
Proof.
  destruct (filterSource_Response example.SerialToString
              (gomap_entries (Some example.issuersAB)) (example.filterAB [])
              example.ctx (example.request crypto.SHA1 example.Ka 1) example.world0)
    as [[r|msg] w'] eqn:Hrun; [| vm_compute in Hrun; discriminate].
  exists r, w'. split; [reflexivity |].
  destruct (Response_four_outcomes _ _ _ _ _ _ _ _ Hrun)
    as [(_ & (e & -> & _) & _)|[(_ & (e & ->) & _)|[(_ & He & _)|(_ & (resp & ->) & _)]]].
  - vm_compute in Hrun. injection Hrun as <- _. by eexists.
  - vm_compute in Hrun. injection Hrun as <- _. by eexists.
  - exact He.
  - vm_compute in Hrun. discriminate.
Defined.

(** X4 at work: the response of issuer A for serial 2 is released. *)
Lemma Response_released_is_for_issuer_witness :
  None = (None : option error)
  ∧ ocsp.HashAlgorithm (example.request crypto.SHA1 example.Ka 2)
    = hashAlgorithm (example.filterAB [])
  ∧ (∃ s', SourceResponse (wrapped (example.filterAB [])) example.ctx
             (example.request crypto.SHA1 example.Ka 2) (inner example.world0)
           = (Done (Some example.resp2A, None), s'))
  ∧ ∃ o, ocspResponse example.resp2A = Some o
         ∧ ocsp.ResponderKeyHash o
           = ocsp.IssuerKeyHash (example.request crypto.SHA1 example.Ka 2).
Proof.
  eapply (Response_released_is_for_issuer example.SerialToString
            (gomap_entries (Some example.issuersAB)) (example.filterAB [])
            example.ctx (example.request crypto.SHA1 example.Ka 2) example.world0).
  - unfold rangeOf. reflexivity.
  - vm_compute. reflexivity.
Defined.

(** X5 at work: the store holds a nil pointer for serial 1. *)
Lemma Response_panics_iff_witness :
  ∃ msg w',
    filterSource_Response example.SerialToString
      (gomap_entries (Some example.issuersAB))
      (example.filterOn example.storeNil (Some example.issuersAB) [])
      example.ctx (example.request crypto.SHA1 example.Ka 1) example.world0
    = (Panic msg, w').
Proof.
  apply (Response_panics_iff example.SerialToString).
  - unfold rangeOf. reflexivity.
  - split; [vm_compute; reflexivity |]. right. exists None, tt.
    split; [vm_compute; reflexivity | by left].
Defined.

(** X6 at work: the response of issuer B checked against issuer A, the
    issuer of the request for serial 1. *)
Lemma checkResponse_after_admission_witness :
  ∃ e, checkResponse (example.filterAB []) 11 (Some example.resp1B) = Done (Some e)
       ∧ e = errorString "responder does not match requested issuer" [].
Proof.
  eexists. split; [vm_compute; reflexivity |].
  apply (checkResponse_after_admission example.SerialToString
           (gomap_entries (Some example.issuersAB)) (example.filterAB [])
           (example.request crypto.SHA1 example.Ka 1) 11
           ltac:(unfold rangeOf; reflexivity) ltac:(vm_compute; reflexivity)
           (Some example.resp1B)).
  vm_compute. reflexivity.
Defined.

(** X7 at work: issuer A first, and issuer B first. *)
Lemma Response_any_order_witness :
  filterSource_Response example.SerialToString
    [(11, example.ridA); (22, example.ridB)] (example.filterAB [])
    example.ctx (example.request crypto.SHA1 example.Kb 1) example.world0
  = filterSource_Response example.SerialToString
      [(22, example.ridB); (11, example.ridA)] (example.filterAB [])
      example.ctx (example.request crypto.SHA1 example.Kb 1) example.world0.
Proof.
  apply Response_any_order.
  - unfold rangeOf. vm_compute. reflexivity.
  - unfold rangeOf. vm_compute. apply perm_swap.
Defined.

(** X8 at work on a filter with the prefix "00". *)
Lemma checkRequest_admits_iff_witness :
  (checkRequest example.SerialToString (gomap_entries (Some example.issuersAB))
     (example.filterAB ["00"%string]) (example.request crypto.SHA1 example.Ka 2)).2
  = None
  ↔ ocsp.HashAlgorithm (example.request crypto.SHA1 example.Ka 2)
    = hashAlgorithm (example.filterAB ["00"%string])
    ∧ (serialPrefixes (example.filterAB ["00"%string]) = []
       ∨ ∃ p, p ∈ serialPrefixes (example.filterAB ["00"%string])
              ∧ String.prefix p (example.SerialToString
                                   (ocsp.SerialNumber
                                      (example.request crypto.SHA1 example.Ka 2)))
                = true)
    ∧ ∃ id rid, gomap_lookup (issuers (example.filterAB ["00"%string])) id = Some rid
                ∧ keyHash rid
                  = ocsp.IssuerKeyHash (example.request crypto.SHA1 example.Ka 2).
Proof.
  apply checkRequest_admits_iff. unfold rangeOf. reflexivity.
Defined.

(** X9 at work: the empty prefix beside "ff". *)
Lemma checkRequest_empty_prefix_witness :
  (checkRequest example.SerialToString (gomap_entries (Some example.issuersAB))
     (example.filterAB [""; "ff"]%string) (example.request crypto.SHA1 example.Ka 2)).2
  ≠ Some (wrapError "unrecognized serial prefix: %w" [] ErrNotFound).
Proof.
  apply checkRequest_empty_prefix. simpl. left.
Defined.

(** X10 at work: a filter with a nil issuer map. *)
Lemma Response_no_issuers_witness :
  ∃ e w', filterSource_Response example.SerialToString []
            (example.filterOn example.store None [])
            example.ctx (example.request crypto.SHA1 example.Ka 2) example.world0
          = (Done (None, Some e), w')
          ∧ IsNotFound e = true
          ∧ calls w' = calls example.world0
          ∧ inner w' = inner example.world0.
Proof.
  apply Response_no_issuers.
  - unfold rangeOf. reflexivity.
  - reflexivity.
Defined.

(** X13 at work: the file of four space characters. *)
Lemma NewMemorySourceFromFile_blank_witness :
  NewMemorySourceFromFile example.ReadFiles example.DecodeString
    example.ParseResponse "blank.b64" (LoggerId 1) []
  = (Done (Some (NewMemorySource (Some ∅) (LoggerId 1)), None),
     [] ++ [{| level := LevelInfo;
               format := "Read %d OCSP responses";
               operands := [LArg (ArgInt 0)] |}]).
Proof.
  eapply proj1.
  eapply (NewMemorySourceFromFile_blank example.ReadFiles example.DecodeString
            example.ParseResponse "blank.b64" (LoggerId 1) _ []).
  - reflexivity.
  - reflexivity.
Defined.

(** X15 at work: three non-empty tokens, two that load and one error. *)
Lemma NewMemorySourceFromFile_accounts_witness :
  ∃ (m : gmap string (option Response)) (lines : list logLine),
    length (List.filter nonEmpty ["MAMKAQA="; "MAMKAQE="; "!!!"; ""]%string)
    = (2 + length lines)%nat
    ∧ (size m ≤ 2)%nat.
Proof.
  destruct (NewMemorySourceFromFile_accounts example.ReadFile example.DecodeString
              example.ParseResponse "two.b64" (LoggerId 1) _ [] eq_refl)
    as (m & lines & _ & _ & Hlen & Hsize).
  exists m, lines. split; [exact Hlen | exact Hsize].
Defined.

(** X16 at work: the tokens of "two.b64" with other spacing. *)
Lemma NewMemorySourceFromFile_spacing_witness :
  NewMemorySourceFromFile example.ReadFiles example.DecodeString
    example.ParseResponse "two.b64" (LoggerId 1) []
  = NewMemorySourceFromFile example.ReadFiles example.DecodeString
      example.ParseResponse "spaced.b64" (LoggerId 1) [].
Proof.
  eapply NewMemorySourceFromFile_spacing.
  - reflexivity.
  - reflexivity.
  - vm_compute. reflexivity.
Defined.

(** X17 at work: the tokens of "two.b64" in another order. *)
Lemma NewMemorySourceFromFile_any_order_witness :
  ∃ m lines1 lines2,
    NewMemorySourceFromFile example.ReadFiles example.DecodeString
      example.ParseResponse "two.b64" (LoggerId 1) []
    = (Done (Some (NewMemorySource (Some m) (LoggerId 1)), None),
       [] ++ lines1 ++ [{| level := LevelInfo;
                           format := "Read %d OCSP responses";
                           operands := [LArg (ArgInt (Z.of_nat (size m)))] |}])
    ∧ NewMemorySourceFromFile example.ReadFiles example.DecodeString
        example.ParseResponse "swapped.b64" (LoggerId 1) []
      = (Done (Some (NewMemorySource (Some m) (LoggerId 1)), None),
         [] ++ lines2 ++ [{| level := LevelInfo;
                             format := "Read %d OCSP responses";
                             operands := [LArg (ArgInt (Z.of_nat (size m)))] |}])
    ∧ length lines1 = length lines2.
Proof.
  eapply NewMemorySourceFromFile_any_order.
  - reflexivity.
  - reflexivity.
  - apply (bool_decide_unpack _). vm_compute. exact I.
  - apply (bool_decide_unpack _). vm_compute. exact I.
Defined.

(** X18 at work: serial 2 under issuer A is released from the store. *)
Lemma filter_over_memory_witness :
  ∃ w', filterSource_Response example.SerialToString
          (gomap_entries (Some example.issuersAB)) (example.filterAB [])
          example.ctx (example.request crypto.SHA1 example.Ka 2) example.world0
        = (Done (Some example.resp2A, None), w').
Proof.
  apply (filter_over_memory example.SerialToString
           (gomap_entries (Some example.issuersAB)) (example.filterAB [])
           example.ctx (example.request crypto.SHA1 example.Ka 2) example.world0
           example.resp2A).
  - unfold rangeOf. reflexivity.
  - split; [vm_compute; reflexivity |]. split; [vm_compute; reflexivity |].
    eexists. split; reflexivity.
Defined.
